(** * mt-collatz: Collatz stopping times computed by a pool of workers

    A shallow embedding of [mt-collatz.cpp].  The program has three layers:

    - [compute_stopping_time], a sequential loop over 32-bit [int]s;
    - [collatz_worker], run by [T] threads that share the atomic [COUNTER],
      the [histogram] vector and the mutex [mtx];
    - [main], which reads [N] and [T] from the command line.

    Integers are [Z] with the 32-bit wrap-around written out.  The threads
    are a list of program points; one scheduling step runs one worker up to
    its next access to shared memory, so every interleaving of the workers
    is a path of the step relation. *)

From Stdlib Require Import ZArith Zquot Lia String Ascii.
From Equations Require Import Equations.
From Equations.Prop Require Import Logic.
From stdpp Require Import base list relations.

Open Scope Z_scope.

(** ** 32-bit [int] *)

Definition INT_MIN : Z := - 2 ^ 31.
Definition INT_MAX : Z := 2 ^ 31 - 1.

(** The value an [int] holds after an arithmetic result [z] is stored in it
    (two's complement; for [std::atomic<int>] this is what the standard
    prescribes, for plain [int] it is what the usual targets compute). *)
Definition wrap32 (z : Z) : Z := (z + 2 ^ 31) mod 2 ^ 32 - 2 ^ 31.

Definition in_int (z : Z) : Prop := INT_MIN <= z <= INT_MAX.

Definition in_intb (z : Z) : bool := (INT_MIN <=? z) && (z <=? INT_MAX).

(** ** [compute_stopping_time] *)

(** The guard of the [while]: [n != 1 && steps < 1000]. *)
Definition loop_cond (n steps : Z) : bool := negb (n =? 1) && (steps <? 1000).

(** The branch on [n % 2 == 0]; [%] and [/] of C++ truncate toward zero,
    which are [Z.rem] and [Z.quot]. *)
Definition loop_body (n : Z) : Z :=
  if Z.rem n 2 =? 0 then Z.quot n 2 else wrap32 (3 * n + 1).

(** The loop itself, from the program point where the locals hold [n] and
    [steps].  It terminates because [steps] approaches 1000. *)
Equations? stopping_loop (n steps : Z) : Z by wf (Z.to_nat (1000 - steps)) lt :=
  stopping_loop n steps with inspect (loop_cond n steps) := {
    | exist _ true Hc := stopping_loop (loop_body n) (steps + 1)
    | exist _ false Hc := steps }.
Proof.
  unfold loop_cond in Hc. apply andb_prop in Hc as [_ Hc]. lia.
Qed.

Definition compute_stopping_time (n : Z) : Z := stopping_loop n 0.

(** The same loop, one iteration at a time: the locals [(n, steps)] after
    [k] executions of the body. *)
Definition loop_step (st : Z * Z) : Z * Z := (loop_body (fst st), snd st + 1).

Fixpoint loop_iter (k : nat) (st : Z * Z) : Z * Z :=
  match k with
  | O => st
  | S k' => loop_iter k' (loop_step st)
  end.

(** ** The Collatz sequence over the integers

    The mathematical sequence the stopping time is defined by, without any
    machine width. *)

Definition collatz_step (n : Z) : Z := if Z.even n then n / 2 else 3 * n + 1.

Fixpoint collatz_iter (k : nat) (n : Z) : Z :=
  match k with
  | O => n
  | S k' => collatz_iter k' (collatz_step n)
  end.

(** [n] reaches 1 for the first time after exactly [s] steps. *)
Definition first_reaches_one (n : Z) (s : nat) : Prop :=
  collatz_iter s n = 1 /\ forall k, (k < s)%nat -> collatz_iter k n <> 1.

(** 1 is not reached within [cap] steps. *)
Definition not_reached_within (n : Z) (cap : nat) : Prop :=
  forall k, (k <= cap)%nat -> collatz_iter k n <> 1.

(** The naive recursive reference: count steps until 1, give up at [cap]. *)
Fixpoint reference_stopping_time (cap : nat) (n : Z) : Z :=
  match cap with
  | O => 0
  | S cap' => if n =? 1 then 0 else 1 + reference_stopping_time cap' (collatz_step n)
  end.

(** Every value the sequence takes before it reaches 1, up to [cap] steps,
    is representable as an [int]. *)
Fixpoint trajectory_fits (cap : nat) (n : Z) : bool :=
  in_intb n &&
  match cap with
  | O => true
  | S cap' => (n =? 1) || trajectory_fits cap' (collatz_step n)
  end.

(** ** Shared state and the worker *)

(** What is fixed for a run: the range bound, the number of threads and the
    synchronization flag. *)
Record config : Type := Config { N : Z; T : Z; use_locks : bool }.

(** Program points of [collatz_worker], with the thread's locals. *)
Inductive worker : Type :=
| AtClaim                                   (* [COUNTER.fetch_add(1)] *)
| AtGuard (num stopping_time : Z)           (* [if(use_locks)], before the lock_guard *)
| InScope (num stopping_time : Z)           (* lock_guard alive, closing brace next *)
| AtUpdate (num stopping_time : Z)          (* [if(stopping_time <= 1000)] and the load *)
| AtStore (num stopping_time loaded : Z)    (* the store of [histogram[stopping_time]++] *)
| Done.                                     (* after [break] *)

#[global] Instance worker_eq_dec : EqDecision worker.
Proof. solve_decision. Defined.

(** The globals, the threads, and a log of every value [fetch_add] has
    returned (most recent first). *)
Record state : Type := State {
  COUNTER : Z;
  histogram : list Z;
  mtx : option nat;
  workers : list worker;
  claimed : list Z
}.

Definition set_worker (i : nat) (w : worker) (s : state) : state :=
  State (COUNTER s) (histogram s) (mtx s) (<[i := w]> (workers s)) (claimed s).

Definition set_mtx (m : option nat) (s : state) : state :=
  State (COUNTER s) (histogram s) m (workers s) (claimed s).

Definition set_histogram (h : list Z) (s : state) : state :=
  State (COUNTER s) h (mtx s) (workers s) (claimed s).

(** [COUNTER.fetch_add(1)]: the old value is returned and logged. *)
Definition fetch_add (s : state) : Z * state :=
  (COUNTER s,
   State (wrap32 (COUNTER s + 1)) (histogram s) (mtx s) (workers s)
         (COUNTER s :: claimed s)).

(** [histogram[i]] as an rvalue; an index outside the vector has no
    defined value. *)
Definition hist_read (h : list Z) (i : Z) : option Z :=
  if i <? 0 then None else h !! Z.to_nat i.

(** One scheduling step of thread [i].  [None]: the thread cannot move
    (it has returned, it waits for the mutex, or there is no such thread). *)
Definition exec (c : config) (i : nat) (s : state) : option state :=
  match workers s !! i with
  | None => None
  | Some AtClaim =>
      let '(num, s1) := fetch_add s in
      if num >? N c then Some (set_worker i Done s1)
      else Some (set_worker i (AtGuard num (compute_stopping_time num)) s1)
  | Some (AtGuard num st) =>
      if use_locks c then
        match mtx s with
        | None => Some (set_worker i (InScope num st) (set_mtx (Some i) s))
        | Some _ => None
        end
      else Some (set_worker i (AtUpdate num st) s)
  | Some (InScope num st) =>
      Some (set_worker i (AtUpdate num st) (set_mtx None s))
  | Some (AtUpdate num st) =>
      if st <=? 1000 then
        match hist_read (histogram s) st with
        | Some v => Some (set_worker i (AtStore num st v) s)
        | None => None
        end
      else Some (set_worker i AtClaim s)
  | Some (AtStore num st v) =>
      Some (set_worker i AtClaim
              (set_histogram (<[Z.to_nat st := wrap32 (v + 1)]> (histogram s)) s))
  | Some Done => None
  end.

Definition step (c : config) (s s' : state) : Prop :=
  exists i, exec c i s = Some s'.

(** The state [main] has built when the threads start. *)
Definition init (c : config) : state :=
  State 1 (replicate 1001 0) None (replicate (Z.to_nat (T c)) AtClaim) [].

Definition reachable (c : config) (s : state) : Prop := rtc (step c) (init c) s.

(** All threads have returned: [main]'s joins are over. *)
Definition all_done (s : state) : Prop := Forall (fun w => w = Done) (workers s).

(** Run a given schedule (a list of thread ids). *)
Fixpoint run (c : config) (sched : list nat) (s : state) : option state :=
  match sched with
  | [] => Some s
  | i :: rest =>
      match exec c i s with
      | Some s' => run c rest s'
      | None => None
      end
  end.

Definition hist_sum (h : list Z) : Z := foldr Z.add 0 h.

(** The thread [i] is inside [histogram[stopping_time]++]: it has loaded
    the entry and not yet stored it. *)
Definition in_increment (s : state) (i : nat) : Prop :=
  exists num st v, workers s !! i = Some (AtStore num st v).

Definition holds_mtx (s : state) (i : nat) : Prop := mtx s = Some i.

(** ** [main]: the command line *)

(** [std::atoi] is the C library's, [(int) strtol(str, NULL, 10)]:
    leading white space is skipped, an optional sign is read, then decimal
    digits as far as they go; with no digit the result is 0.  [strtol]
    holds a value beyond [long] at [LONG_MAX] or [LONG_MIN]; the cast
    keeps the low 32 bits. *)
Definition isspace (ch : ascii) : bool :=
  let k := nat_of_ascii ch in
  Nat.eqb k 32 || (Nat.leb 9 k && Nat.leb k 13).

Definition digit_value (ch : ascii) : option Z :=
  let k := Z.of_nat (nat_of_ascii ch) in
  if (48 <=? k) && (k <=? 57) then Some (k - 48) else None.

Fixpoint skip_spaces (str : string) : string :=
  match str with
  | String ch rest => if isspace ch then skip_spaces rest else str
  | EmptyString => str
  end.

Fixpoint read_digits (acc : Z) (str : string) : Z :=
  match str with
  | String ch rest =>
      match digit_value ch with
      | Some d => read_digits (10 * acc + d) rest
      | None => acc
      end
  | EmptyString => acc
  end.

Definition LONG_MIN : Z := - 2 ^ 63.
Definition LONG_MAX : Z := 2 ^ 63 - 1.

Definition strtol (str : string) : Z :=
  match skip_spaces str with
  | String "-"%char rest => Z.max LONG_MIN (- read_digits 0 rest)
  | String "+"%char rest => Z.min LONG_MAX (read_digits 0 rest)
  | rest => Z.min LONG_MAX (read_digits 0 rest)
  end.

Definition atoi (str : string) : Z := wrap32 (strtol str).

(** What [main] does with its arguments, up to the launch of the threads:
    it either prints the usage line and returns 1, or creates the workers
    with a configuration.  What follows the launch (the joins, the output
    and [return 0]) is reached only when the run of the workers ends; the
    runs are the paths of [step] from [init c]. *)
Inductive outcome : Type :=
| UsageError (exit_status : Z)
| Launched (c : config).

Definition main (argv : list string) : outcome :=
  let argc := Z.of_nat (length argv) in
  if argc <? 3 then UsageError 1
  else
    let n := atoi (nth 1 argv EmptyString) in
    let t := atoi (nth 2 argv EmptyString) in
    let nolock := (argc =? 4) && String.eqb (nth 3 argv EmptyString) "-nolock" in
    Launched (Config n t (negb nolock)).

(** An argument that is an integer literal and nothing else: an optional
    sign followed by one or more decimal digits. *)
Fixpoint all_digits (str : string) : bool :=
  match str with
  | EmptyString => true
  | String ch rest =>
      match digit_value ch with
      | Some _ => all_digits rest
      | None => false
      end
  end.

Definition nonempty (str : string) : bool :=
  match str with
  | EmptyString => false
  | String _ _ => true
  end.

Definition syntactically_valid_integer (str : string) : bool :=
  match str with
  | String "-"%char rest => nonempty rest && all_digits rest
  | String "+"%char rest => nonempty rest && all_digits rest
  | _ => nonempty str && all_digits str
  end.

(** ** Auxiliary definitions for the proofs *)

(** Deciding [first_reaches_one] on given numbers. *)
Definition first_reaches_oneb (n : Z) (s : nat) : bool :=
  (collatz_iter s n =? 1) &&
  forallb (fun k => negb (collatz_iter k n =? 1)) (seq 0 s).

(** The locals of a worker past the claim: [num] was not above [N] and
    [stopping_time] was computed from it. *)
Definition locals_ok (c : config) (w : worker) : Prop :=
  match w with
  | AtClaim | Done => True
  | AtGuard num st | InScope num st | AtUpdate num st | AtStore num st _ =>
      num <= N c /\ st = compute_stopping_time num
  end.

Definition shape_inv (c : config) (s : state) : Prop :=
  length (histogram s) = 1001%nat /\
  length (workers s) = Z.to_nat (T c) /\
  Forall (locals_ok c) (workers s).

(** Whoever owns the mutex is inside the lock_guard's block. *)
Definition mtx_inv (s : state) : Prop :=
  forall i, mtx s = Some i -> exists num st, workers s !! i = Some (InScope num st).

Fixpoint count_done (ws : list worker) : nat :=
  match ws with
  | [] => O
  | w :: rest => ((if decide (w = Done) then 1 else 0) + count_done rest)%nat
  end.

(** [k, k-1, ..., 1]: the log after [k] claims when nothing wrapped. *)
Fixpoint countdown (k : nat) : list Z :=
  match k with
  | O => []
  | S k' => Z.of_nat k :: countdown k'
  end.

(** The counter and the log after [k] claims, as long as the counter did
    not wrap: the log is [k, ..., 1], and every claim above [N] has
    retired one thread. *)
Definition claims_inv (c : config) (s : state) : Prop :=
  exists k : nat,
    claimed s = countdown k /\
    COUNTER s = wrap32 (Z.of_nat k + 1) /\
    Z.of_nat k <= Z.max 0 (N c) + Z.of_nat (count_done (workers s)) /\
    (Done ∈ workers s -> N c < Z.of_nat k).

(** With an empty range a thread is either about to claim or has returned. *)
Definition idle (w : worker) : Prop := w = AtClaim \/ w = Done.

(** [exec c i s = Some s'] in a hypothesis [H]: one case per program point. *)
Ltac exec_cases H :=
  unfold exec in H;
  match type of H with
  | context [workers ?s !! ?i] =>
      let Hw := fresh "Hw" in
      destruct (workers s !! i) as [[| ? ? | ? ? | ? ? | ? ? ? |]|] eqn:Hw;
      [ | | | | | discriminate H | discriminate H ]
  end.

(** The final state of the run [N = 10], [T = 1]. *)
Definition marked (idx : list nat) : list Z :=
  foldr (fun i h => <[i := 1]> h) (replicate 1001 0) idx.

Definition final_10_1 : state :=
  State 12 (marked [0; 1; 2; 3; 5; 6; 7; 8; 16; 19]%nat) None [Done]
        [11; 10; 9; 8; 7; 6; 5; 4; 3; 2; 1].

(** Schedules used as examples: thread ids in the order they move. *)
Definition sched_10_1 : list nat := replicate 51 0%nat.

Definition sched_both_storing : list nat := [0; 1; 0; 0; 0; 1; 1; 1]%nat.

Definition sched_lost_update : list nat :=
  (replicate 56 0 ++ [1; 0; 0; 0; 1; 1; 1; 0; 1; 0; 1])%nat.

(** States met in the examples below. *)
Definition final_2_1 : state :=
  State 4 (marked [0; 1]%nat) None [Done] [3; 2; 1].

Definition final_0_2 : state :=
  State 3 (replicate 1001 0) None [Done; Done] [2; 1].

Definition loading_1_1 : state :=
  State 2 (replicate 1001 0) None [AtUpdate 1 0] [1].

Definition reclaiming_1_1 : state :=
  State 2 (marked [0]%nat) None [AtClaim] [1].

Definition both_storing : state :=
  State 3 (replicate 1001 0) None [AtStore 1 0 0; AtStore 2 1 0] [2; 1].

(** A run whose counter wraps: [N = INT_MAX - 1] with two threads. *)
Definition config_wrap : config := Config (INT_MAX - 1) 2 true.

(** With a single thread: the histogram total against the number of claims
    made, by program point.  A claim not yet recorded keeps the total one
    behind, and so does the final claim, which is above [N]. *)
Definition serial_inv (s : state) : Prop :=
  Forall (fun v => 0 <= v) (histogram s) /\
  exists w, workers s = [w] /\
    match w with
    | AtClaim => hist_sum (histogram s) = Z.of_nat (length (claimed s))
    | AtGuard _ _ | InScope _ _ | AtUpdate _ _ | Done =>
        hist_sum (histogram s) + 1 = Z.of_nat (length (claimed s))
    | AtStore _ st v =>
        hist_sum (histogram s) + 1 = Z.of_nat (length (claimed s)) /\
        histogram s !! Z.to_nat st = Some v
    end.

(** ** Further definitions: the rest of [main] and measures on states *)

(** Every worker inside the lock_guard's block owns the mutex. *)
Definition scope_inv (s : state) : Prop :=
  forall i num st, workers s !! i = Some (InScope num st) -> mtx s = Some i.

(** How many steps a worker is away from its next claim. *)
Definition rank (w : worker) : Z :=
  match w with
  | AtGuard _ _ => 4
  | InScope _ _ => 3
  | AtUpdate _ _ => 2
  | AtStore _ _ _ => 1
  | AtClaim | Done => 0
  end.

Definition rank_sum (ws : list worker) : Z := foldr (fun w r => rank w + r) 0 ws.

(** A bound on the number of steps still possible: five for each claim
    that can still be made, plus what the workers need to get back to
    their claim. *)
Definition potential (c : config) (s : state) : Z :=
  5 * (Z.max 0 (N c) + Z.of_nat (length (workers s)) - Z.of_nat (length (claimed s)))
  + rank_sum (workers s).

(** The same configuration with the locks switched on. *)
Definition with_locks (c : config) : config := Config (N c) (T c) true.

(** The workers that have returned are as many as the claims made beyond
    the range. *)
Definition done_count_inv (c : config) (s : state) : Prop :=
  Z.of_nat (count_done (workers s))
  = Z.max 0 (Z.of_nat (length (claimed s)) - Z.max 0 (N c)).

Definition reclaiming_1_1_done : state :=
  State 3 (marked [0]%nat) None [Done] [2; 1].

(** ** Counting what the histogram should hold *)

Definition wsum (f : worker -> Z) (ws : list worker) : Z :=
  foldr (fun w r => f w + r) 0 ws.

(** 1 for a worker that has claimed an input with stopping time [j] and
    has not finished recording it. *)
Definition flight (j : Z) (w : worker) : Z :=
  match w with
  | AtGuard _ st | InScope _ st | AtUpdate _ st | AtStore _ st _ =>
      if st =? j then 1 else 0
  | AtClaim | Done => 0
  end.

(** How many of the claimed values were in range and have stopping time
    [j]. *)
Definition tally (c : config) (j : Z) (l : list Z) : Z :=
  Z.of_nat (length (List.filter
    (fun v => (v <=? N c) && (compute_stopping_time v =? j)) l)).

(** How many inputs with stopping time [j] have been recorded to the
    end: claimed, and no longer in the hands of a worker. *)
Definition recorded (c : config) (s : state) (j : Z) : Z :=
  tally c j (claimed s) - wsum (flight j) (workers s).

(** The number of inputs [n] in [1, N] with [compute_stopping_time n = j]:
    what entry [j] of the histogram is meant to be. *)
Definition inputs_with (c : config) (j : Z) : Z :=
  Z.of_nat (length (List.filter
    (fun v => compute_stopping_time v =? j) (countdown (Z.to_nat (N c))))).

(** No entry, and no value loaded from an entry, exceeds the number of
    increments completed on it. *)
Definition over_inv (c : config) (s : state) : Prop :=
  (forall (j : nat) e, histogram s !! j = Some e ->
     0 <= e <= recorded c s (Z.of_nat j)) /\
  (forall i num st v, workers s !! i = Some (AtStore num st v) ->
     0 <= v <= recorded c s st).

(** With a single thread every entry is exactly the number of increments
    completed on it. *)
Definition exact_inv (c : config) (s : state) : Prop :=
  forall (j : nat) e, histogram s !! j = Some e -> e = recorded c s (Z.of_nat j).

(** How many of [k, ..., 1] have stopping time [j]. *)
Definition with_time (j : Z) (k : nat) : Z :=
  Z.of_nat (length (List.filter (fun v => compute_stopping_time v =? j) (countdown k))).

(** The same configuration with [-nolock]. *)
Definition without_locks (c : config) : config := Config (N c) (T c) false.

(** A state of a run with locks, seen as a state of a run without: a
    worker inside the lock_guard's block is a worker that has not passed
    [if(use_locks)] yet, and there is no mutex to own. *)
Definition erase_worker (w : worker) : worker :=
  match w with
  | InScope num st => AtGuard num st
  | _ => w
  end.

Definition erase (s : state) : state :=
  State (COUNTER s) (histogram s) None (erase_worker <$> workers s) (claimed s).

(** ** [main]: the elapsed time (lines 139-148)

    [clock_gettime] fills two [timespec]s; their fields are [long]s
    (64 bits here). *)
Record timespec : Type := Timespec { tv_sec : Z; tv_nsec : Z }.

Definition wrap64 (z : Z) : Z := (z + 2 ^ 63) mod 2 ^ 64 - 2 ^ 63.

(** The pair [(seconds, nanoseconds)] that is printed. *)
Definition elapsed (start_time end_time : timespec) : Z * Z :=
  let seconds := wrap64 (tv_sec end_time - tv_sec start_time) in
  let nanoseconds := wrap64 (tv_nsec end_time - tv_nsec start_time) in
  if nanoseconds <? 0
  then (wrap64 (seconds - 1), wrap64 (nanoseconds + 1000000000))
  else (seconds, nanoseconds).

(** A reading of the clock: a non-negative number of seconds (far from the
    ends of [long]) and a nanosecond part below one second. *)
Definition valid_timespec (t : timespec) : Prop :=
  0 <= tv_sec t < 2 ^ 62 /\ 0 <= tv_nsec t < 1000000000.

Definition total_ns (t : timespec) : Z := tv_sec t * 1000000000 + tv_nsec t.
(** * Properties *)

(** ** 32-bit arithmetic *)

Lemma wrap32_id z : in_int z -> wrap32 z = z.
Proof.
  unfold in_int, INT_MIN, INT_MAX, wrap32. intros Hz.
  rewrite Z.mod_small; lia.
Qed.

Lemma wrap32_in_int z : in_int (wrap32 z).
Proof.
  unfold in_int, INT_MIN, INT_MAX, wrap32.
  pose proof (Z.mod_pos_bound (z + 2 ^ 31) (2 ^ 32)). lia.
Qed.

Lemma in_intb_spec z : in_intb z = true <-> in_int z.
Proof. unfold in_intb, in_int. rewrite andb_true_iff. lia. Qed.

(** ** The stopping-time loop *)

(** The loop, unrolled once. *)
Lemma stopping_loop_once n steps :
  stopping_loop n steps =
  if loop_cond n steps then stopping_loop (loop_body n) (steps + 1) else steps.
Proof.
  rewrite stopping_loop_equation_1.
  unfold stopping_loop_unfold_clause_1, inspect.
  destruct (loop_cond n steps); reflexivity.
Qed.

Lemma loop_cond_steps n steps : loop_cond n steps = true -> steps < 1000.
Proof. unfold loop_cond. rewrite andb_true_iff. lia. Qed.

(** The result is the value of [steps] at the first iteration count [k]
    where the guard fails, and [k] is at most what is left to 1000. *)
Lemma stopping_loop_iter (m : nat) : forall n steps,
  1000 - steps <= Z.of_nat m ->
  exists k, (k <= m)%nat /\
    (forall j, (j < k)%nat ->
       loop_cond (fst (loop_iter j (n, steps))) (snd (loop_iter j (n, steps))) = true) /\
    loop_cond (fst (loop_iter k (n, steps))) (snd (loop_iter k (n, steps))) = false /\
    stopping_loop n steps = snd (loop_iter k (n, steps)) /\
    snd (loop_iter k (n, steps)) = steps + Z.of_nat k.
Proof.
  induction m as [|m IH]; intros n steps Hm.
  - exists O. rewrite stopping_loop_once.
    assert (Hc : loop_cond n steps = false).
    { unfold loop_cond. rewrite andb_false_iff. right. lia. }
    simpl. rewrite Hc. repeat split; [lia | lia | lia].
  - destruct (loop_cond n steps) eqn:Hc.
    + destruct (IH (loop_body n) (steps + 1)) as (k & Hk & Hbefore & Hat & Hres & Hsnd);
        [lia|].
      exists (S k). cbn [loop_iter].
      change (loop_step (n, steps)) with (loop_body n, steps + 1).
      repeat split.
      * lia.
      * intros [|j] Hj; [exact Hc | cbn [loop_iter]; apply Hbefore; lia].
      * exact Hat.
      * rewrite stopping_loop_once, Hc. exact Hres.
      * rewrite Hsnd. lia.
    + exists O. simpl. rewrite stopping_loop_once, Hc.
      repeat split; [lia | lia | lia].
Qed.

Lemma stopping_loop_bounds n steps :
  0 <= steps <= 1000 -> steps <= stopping_loop n steps <= 1000.
Proof.
  intros Hs.
  destruct (stopping_loop_iter (Z.to_nat (1000 - steps)) n steps)
    as (k & Hk & _ & _ & Hres & Hsnd); [lia|].
  rewrite Hres, Hsnd. lia.
Qed.

Lemma compute_stopping_time_bounds n : 0 <= compute_stopping_time n <= 1000.
Proof. apply stopping_loop_bounds. lia. Qed.

(** ** Agreement with the mathematical sequence *)

Lemma loop_body_collatz n :
  in_int n -> in_int (collatz_step n) -> loop_body n = collatz_step n.
Proof.
  unfold loop_body, collatz_step. intros Hn Hstep.
  rewrite Zquot.Zrem_even.
  destruct (Z.even n) eqn:He.
  - rewrite Z.eqb_refl.
    apply Z.even_spec in He as [q ->].
    rewrite (Z.mul_comm 2 q), Z.quot_mul, Z.div_mul by lia. reflexivity.
  - assert (Hsgn : Z.sgn n <> 0).
    { destruct n; [discriminate He | discriminate | discriminate]. }
    apply Z.eqb_neq in Hsgn. rewrite Hsgn.
    apply wrap32_id. exact Hstep.
Qed.

Lemma trajectory_fits_in_int cap n : trajectory_fits cap n = true -> in_int n.
Proof.
  destruct cap; simpl; rewrite andb_true_iff; intros [H _];
    apply in_intb_spec; exact H.
Qed.

(** While no value leaves the [int] range the loop counts exactly like the
    naive recursive reference. *)
Lemma stopping_loop_reference (cap : nat) : forall n steps,
  steps = 1000 - Z.of_nat cap ->
  trajectory_fits cap n = true ->
  stopping_loop n steps = steps + reference_stopping_time cap n.
Proof.
  induction cap as [|cap IH]; intros n steps Hsteps Hfits.
  - rewrite stopping_loop_once. unfold loop_cond.
    replace (steps <? 1000) with false by (symmetry; apply Z.ltb_ge; lia).
    rewrite andb_false_r. simpl. lia.
  - rewrite stopping_loop_once. unfold loop_cond.
    replace (steps <? 1000) with true by (symmetry; apply Z.ltb_lt; lia).
    cbn [trajectory_fits reference_stopping_time] in *.
    apply andb_true_iff in Hfits as [Hn Hrest]. apply in_intb_spec in Hn.
    destruct (n =? 1) eqn:H1; simpl.
    + lia.
    + simpl in Hrest.
      rewrite loop_body_collatz
        by (try exact Hn; eapply trajectory_fits_in_int; exact Hrest).
      rewrite (IH (collatz_step n) (steps + 1)); [lia | lia | exact Hrest].
Qed.

Lemma first_reaches_one_shift n s :
  first_reaches_one n (S s) -> first_reaches_one (collatz_step n) s.
Proof.
  intros [Hat Hbefore]. split; [exact Hat|].
  intros k Hk. apply (Hbefore (S k)). lia.
Qed.

Lemma reference_first (cap : nat) : forall n s,
  (s <= cap)%nat -> first_reaches_one n s ->
  reference_stopping_time cap n = Z.of_nat s.
Proof.
  induction cap as [|cap IH]; intros n s Hs Hfirst.
  - assert (s = O) by lia. subst s. reflexivity.
  - cbn [reference_stopping_time]. destruct (n =? 1) eqn:H1.
    + apply Z.eqb_eq in H1. destruct s as [|s]; [reflexivity|].
      destruct Hfirst as [_ Hbefore]. exfalso. apply (Hbefore O); [lia | exact H1].
    + apply Z.eqb_neq in H1. destruct s as [|s].
      * destruct Hfirst as [Hat _]. simpl in Hat. contradiction.
      * rewrite (IH (collatz_step n) s);
          [lia | lia | apply first_reaches_one_shift; exact Hfirst].
Qed.

Lemma reference_capped (cap : nat) : forall n,
  not_reached_within n cap -> reference_stopping_time cap n = Z.of_nat cap.
Proof.
  induction cap as [|cap IH]; intros n Hnot; [reflexivity|].
  cbn [reference_stopping_time].
  destruct (n =? 1) eqn:H1.
  - apply Z.eqb_eq in H1. exfalso. apply (Hnot O); [lia | exact H1].
  - rewrite IH; [lia|]. intros k Hk. apply (Hnot (S k)). lia.
Qed.

Lemma first_reaches_oneb_sound n s :
  first_reaches_oneb n s = true -> first_reaches_one n s.
Proof.
  unfold first_reaches_oneb, first_reaches_one.
  rewrite andb_true_iff, forallb_forall. intros [Hat Hbefore].
  split; [apply Z.eqb_eq; exact Hat|].
  intros k Hk. specialize (Hbefore k).
  rewrite <- list_elem_of_In, elem_of_seq in Hbefore.
  apply Z.eqb_neq, negb_true_iff, Hbefore. lia.
Qed.

Lemma collatz_iter_zero k : collatz_iter k 0 = 0.
Proof. induction k as [|k IH]; [reflexivity | exact IH]. Qed.

(** ** The step relation *)

Lemma run_rtc c sched : forall s s', run c sched s = Some s' -> rtc (step c) s s'.
Proof.
  induction sched as [|i rest IH]; intros s s' Hrun; simpl in Hrun.
  - injection Hrun as <-. apply rtc_refl.
  - destruct (exec c i s) as [s1|] eqn:He; [|discriminate].
    eapply rtc_l; [exists i; exact He | apply IH; exact Hrun].
Qed.

Lemma run_reachable c sched s : run c sched (init c) = Some s -> reachable c s.
Proof. apply run_rtc. Qed.

(** Induction over the reachable states. *)
Lemma reachable_ind (c : config) (P : state -> Prop) :
  P (init c) ->
  (forall s s' i, reachable c s -> P s -> exec c i s = Some s' -> P s') ->
  forall s, reachable c s -> P s.
Proof.
  intros Hinit Hstep. unfold reachable.
  apply (rtc_ind_r (fun s => P s) (init c)); [exact Hinit|].
  intros s s' Hs [i Hi] IH.
  eapply Hstep; [exact Hs | exact IH | exact Hi].
Qed.

Lemma exec_Done c i s : workers s !! i = Some Done -> exec c i s = None.
Proof. intros H. unfold exec. rewrite H. reflexivity. Qed.

Lemma all_done_terminal c s s' : all_done s -> ~ step c s s'.
Proof.
  intros Hall [i Hi]. unfold exec in Hi.
  destruct (workers s !! i) as [w|] eqn:Hw; [|discriminate].
  unfold all_done in Hall. rewrite Forall_lookup in Hall.
  rewrite (Hall i w Hw) in Hi. discriminate.
Qed.

Lemma exec_workers_length c i s s' :
  exec c i s = Some s' -> length (workers s') = length (workers s).
Proof.
  intros H. exec_cases H; simpl in H;
    repeat match type of H with
           | context [if ?b then _ else _] => destruct b
           | context [match ?o with Some _ => _ | None => _ end] => destruct o
           end;
    try discriminate; injection H as <-; simpl; apply length_insert.
Qed.

(** ** Shape of the reachable states *)

Lemma init_shape c : shape_inv c (init c).
Proof.
  unfold init. split; [|split]; cbn [histogram workers].
  - apply length_replicate.
  - apply length_replicate.
  - apply Forall_replicate. exact I.
Qed.

Lemma exec_shape c i s s' : shape_inv c s -> exec c i s = Some s' -> shape_inv c s'.
Proof.
  intros (Hh & Hw & Hl) H.
  assert (Hold : forall w, workers s !! i = Some w -> locals_ok c w).
  { intros w Hi. rewrite Forall_lookup in Hl. exact (Hl i w Hi). }
  exec_cases H; specialize (Hold _ eq_refl); simpl in Hold, H.
  - destruct (COUNTER s >? N c) eqn:Hgt; injection H as <-;
      (split; [|split]; simpl;
       [ exact Hh | rewrite length_insert; exact Hw | apply Forall_insert; [exact Hl|] ]).
    + exact I.
    + simpl. split; [lia | reflexivity].
  - destruct (use_locks c); [destruct (mtx s); [discriminate|]|];
      injection H as <-;
      (split; [|split]; simpl;
       [ exact Hh | rewrite length_insert; exact Hw
       | apply Forall_insert; [exact Hl | exact Hold] ]).
  - injection H as <-.
    split; [|split]; simpl;
      [ exact Hh | rewrite length_insert; exact Hw
      | apply Forall_insert; [exact Hl | exact Hold] ].
  - destruct (_ <=? 1000); [destruct (hist_read _ _); [|discriminate]|];
      injection H as <-;
      (split; [|split]; simpl;
       [ exact Hh | rewrite length_insert; exact Hw
       | apply Forall_insert; [exact Hl | first [exact Hold | exact I] ] ]).
  - injection H as <-.
    split; [|split]; simpl;
      [ rewrite length_insert; exact Hh | rewrite length_insert; exact Hw
      | apply Forall_insert; [exact Hl | exact I] ].
Qed.

Lemma reachable_shape c s : reachable c s -> shape_inv c s.
Proof.
  revert s. apply reachable_ind; [apply init_shape|].
  intros s s' i _ Hs He. eapply exec_shape; eassumption.
Qed.

(** ** The mutex *)

Lemma init_mtx c : mtx_inv (init c).
Proof. intros i Hi. discriminate Hi. Qed.

Lemma exec_mtx c i s s' : mtx_inv s -> exec c i s = Some s' -> mtx_inv s'.
Proof.
  intros Hinv H.
  assert (Hlt : (i < length (workers s))%nat).
  { unfold exec in H. destruct (workers s !! i) eqn:Hw; [|discriminate].
    eapply lookup_lt_Some; exact Hw. }
  assert (Hkeep : forall w, mtx s' = mtx s ->
            workers s' = <[i := w]> (workers s) ->
            (forall num st, workers s !! i <> Some (InScope num st)) ->
            mtx_inv s').
  { intros w Hm Hws Hnot j Hj. rewrite Hm in Hj.
    destruct (Hinv j Hj) as (num & st & Hjw).
    exists num, st. rewrite Hws, list_lookup_insert_ne; [exact Hjw|].
    intros ->. exact (Hnot _ _ Hjw). }
  exec_cases H; simpl in H.
  - destruct (COUNTER s >? N c); injection H as <-;
      (eapply Hkeep; [reflexivity | reflexivity | intros ? ?; discriminate]).
  - destruct (use_locks c); [destruct (mtx s) eqn:Hm; [discriminate|]|];
      injection H as <-.
    + intros j Hj. simpl in Hj. injection Hj as <-. simpl.
      eexists _, _. apply list_lookup_insert_eq. exact Hlt.
    + eapply Hkeep; [reflexivity | reflexivity | intros ? ?; discriminate].
  - injection H as <-. intros j Hj. discriminate Hj.
  - destruct (_ <=? 1000); [destruct (hist_read _ _); [|discriminate]|];
      injection H as <-;
      (eapply Hkeep; [reflexivity | reflexivity | intros ? ?; discriminate]).
  - injection H as <-.
    eapply Hkeep; [reflexivity | reflexivity | intros ? ?; discriminate].
Qed.

Lemma reachable_mtx c s : reachable c s -> mtx_inv s.
Proof.
  revert s. apply reachable_ind; [apply init_mtx|].
  intros s s' i _ Hs He. eapply exec_mtx; eassumption.
Qed.

(** X20.  In no reachable state does a worker hold the mutex while it is
    between the load and the store of its increment. *)
Lemma increment_outside_mtx c s i :
  reachable c s -> in_increment s i -> ~ holds_mtx s i.
Proof.
  intros Hs (num & st & v & Hw) Hm.
  destruct (reachable_mtx c s Hs i Hm) as (num' & st' & Hw').
  rewrite Hw in Hw'. discriminate Hw'.
Qed.

(** ** Counting the threads that have returned *)

Lemma count_done_insert ws : forall i w w',
  ws !! i = Some w ->
  (count_done (<[i := w']> ws) + (if decide (w = Done) then 1 else 0) =
   count_done ws + (if decide (w' = Done) then 1 else 0))%nat.
Proof.
  induction ws as [|x ws IH]; intros [|i] w w' Hi; simpl in *; try discriminate.
  - injection Hi as ->. lia.
  - specialize (IH i w w' Hi). lia.
Qed.

Lemma count_done_le ws : (count_done ws <= length ws)%nat.
Proof.
  induction ws as [|x ws IH]; simpl; [lia|]. destruct (decide (x = Done)); lia.
Qed.

Lemma count_done_lt ws i w :
  ws !! i = Some w -> w <> Done -> (count_done ws < length ws)%nat.
Proof.
  revert i. induction ws as [|x ws IH]; intros [|i] Hi Hw; simpl in *;
    try discriminate.
  - injection Hi as ->. destruct (decide (w = Done)); [contradiction|].
    pose proof (count_done_le ws). lia.
  - specialize (IH i Hi Hw). destruct (decide (x = Done)); lia.
Qed.

Lemma Done_in_insert (ws : list worker) i w :
  w <> Done -> Done ∈ <[i := w]> ws -> Done ∈ ws.
Proof.
  intros Hw Hin. apply list_elem_of_lookup in Hin as [j Hj].
  destruct (decide (i = j)) as [->|Hne].
  - destruct (decide (j < length ws)%nat) as [Hlt|Hge].
    + rewrite list_lookup_insert_eq in Hj by exact Hlt. congruence.
    + rewrite list_insert_ge in Hj by lia. apply list_elem_of_lookup. eauto.
  - rewrite list_lookup_insert_ne in Hj by exact Hne.
    apply list_elem_of_lookup. eauto.
Qed.

(** ** The log of claims *)

Lemma elem_of_countdown k v : v ∈ countdown k <-> 1 <= v <= Z.of_nat k.
Proof.
  induction k as [|k IH].
  - simpl. rewrite elem_of_nil. lia.
  - cbn [countdown]. rewrite elem_of_cons, IH. lia.
Qed.

Lemma NoDup_countdown k : NoDup (countdown k).
Proof.
  induction k as [|k IH]; [constructor|].
  cbn [countdown]. constructor; [|exact IH].
  rewrite elem_of_countdown. lia.
Qed.

(** A step that is not a claim leaves the counter and the log alone. *)
Lemma claims_inv_keep c s s' i w w' :
  workers s !! i = Some w -> w <> Done -> w' <> Done ->
  workers s' = <[i := w']> (workers s) ->
  claimed s' = claimed s -> COUNTER s' = COUNTER s ->
  claims_inv c s -> claims_inv c s'.
Proof.
  intros Hw Hnd Hnd' Hws Hcl Hco (k & Hlog & Hcnt & Hbound & Hdone).
  exists k. rewrite Hcl, Hco, Hws.
  pose proof (count_done_insert (workers s) i w w' Hw) as Hc.
  destruct (decide (w = Done)); [contradiction|].
  destruct (decide (w' = Done)); [contradiction|].
  repeat split; [exact Hlog | exact Hcnt | lia |].
  intros Hin. apply Hdone. eapply Done_in_insert; eassumption.
Qed.

Section NoWrap.

Variable c : config.

(** No claim of the run returns a wrapped value: the counter reaches at
    most [N + T]. *)
Hypothesis no_wrap : Z.max 0 (N c) + Z.max 0 (T c) <= INT_MAX.

Lemma init_claims : claims_inv c (init c).
Proof.
  exists O. unfold init. cbn [claimed COUNTER workers].
  repeat split; [lia|].
  intros Hin. apply elem_of_replicate in Hin as [Hin _]. discriminate Hin.
Qed.

Lemma exec_claims i s s' :
  shape_inv c s -> claims_inv c s -> exec c i s = Some s' -> claims_inv c s'.
Proof.
  intros (_ & Hlen & _) Hinv H.
  exec_cases H; simpl in H.
  - destruct Hinv as (k & Hlog & Hcnt & Hbound & Hdone).
    pose proof (count_done_lt _ _ _ Hw ltac:(discriminate)) as Hlt.
    pose proof (count_done_insert (workers s) i AtClaim Done Hw) as Hcd.
    pose proof (count_done_insert (workers s) i AtClaim
                  (AtGuard (COUNTER s) (compute_stopping_time (COUNTER s))) Hw)
      as Hcg.
    simpl in Hcd, Hcg.
    assert (Hk : COUNTER s = Z.of_nat k + 1).
    { rewrite Hcnt. apply wrap32_id. unfold in_int, INT_MIN, INT_MAX in *. lia. }
    destruct (COUNTER s >? N c) eqn:Hgt; injection H as <-;
      exists (S k); cbn [claimed COUNTER workers set_worker countdown].
    + repeat split.
      * rewrite Hlog, Hk. f_equal. lia.
      * rewrite Hk. f_equal. lia.
      * lia.
      * lia.
    + repeat split.
      * rewrite Hlog, Hk. f_equal. lia.
      * rewrite Hk. f_equal. lia.
      * lia.
      * intros Hin. apply Done_in_insert in Hin; [|discriminate].
        specialize (Hdone Hin). lia.
  - destruct (use_locks c); [destruct (mtx s); [discriminate|]|];
      injection H as <-;
      (eapply claims_inv_keep; [exact Hw | | | reflexivity | reflexivity
                               | reflexivity | exact Hinv]; discriminate).
  - injection H as <-.
    eapply claims_inv_keep; [exact Hw | | | reflexivity | reflexivity
                            | reflexivity | exact Hinv]; discriminate.
  - destruct (_ <=? 1000); [destruct (hist_read _ _); [|discriminate]|];
      injection H as <-;
      (eapply claims_inv_keep; [exact Hw | | | reflexivity | reflexivity
                               | reflexivity | exact Hinv]; discriminate).
  - injection H as <-.
    eapply claims_inv_keep; [exact Hw | | | reflexivity | reflexivity
                            | reflexivity | exact Hinv]; discriminate.
Qed.

Lemma reachable_claims s : reachable c s -> claims_inv c s.
Proof.
  revert s. apply reachable_ind; [apply init_claims|].
  intros s s' i Hr Hs He.
  eapply exec_claims; [apply reachable_shape; exact Hr | exact Hs | exact He].
Qed.

(** A thread that is about to claim reads the number of claims made so
    far plus one, unwrapped. *)
Lemma claim_value s i :
  reachable c s -> workers s !! i = Some AtClaim ->
  exists k : nat, claimed s = countdown k /\ COUNTER s = Z.of_nat k + 1 /\
    Z.of_nat k <= Z.max 0 (N c) + Z.of_nat (count_done (workers s)).
Proof.
  intros Hr Hw.
  destruct (reachable_claims s Hr) as (k & Hlog & Hcnt & Hbound & _).
  destruct (reachable_shape c s Hr) as (_ & Hlen & _).
  pose proof (count_done_lt _ _ _ Hw ltac:(discriminate)) as Hlt.
  exists k. repeat split; [exact Hlog | | exact Hbound].
  rewrite Hcnt. apply wrap32_id. unfold in_int, INT_MIN, INT_MAX in *. lia.
Qed.

End NoWrap.

(** ** One thread: the run is deterministic *)

Lemma step_single_det c s s1 s2 :
  length (workers s) = 1%nat -> step c s s1 -> step c s s2 -> s1 = s2.
Proof.
  intros Hlen [i Hi] [j Hj].
  assert (Hi0 : i = O).
  { unfold exec in Hi. destruct (workers s !! i) eqn:Hw; [|discriminate].
    apply lookup_lt_Some in Hw. lia. }
  assert (Hj0 : j = O).
  { unfold exec in Hj. destruct (workers s !! j) eqn:Hw; [|discriminate].
    apply lookup_lt_Some in Hw. lia. }
  subst i j. congruence.
Qed.

Lemma single_final_unique c s a :
  rtc (step c) s a -> forall b,
  length (workers s) = 1%nat -> rtc (step c) s b ->
  all_done a -> all_done b -> a = b.
Proof.
  induction 1 as [s | s y a Hsy Hya IH]; intros b Hlen Hb Ha Hdb.
  - inversion Hb as [|? y ? Hsy Hyb]; subst.
    + reflexivity.
    + exfalso. eapply all_done_terminal; [exact Ha | exact Hsy].
  - inversion Hb as [|? y' ? Hsy' Hyb]; subst.
    + exfalso. eapply all_done_terminal; [exact Hdb | exact Hsy].
    + assert (y' = y) by (eapply step_single_det; eassumption). subst y'.
      apply IH; try assumption.
      destruct Hsy as [i Hi]. rewrite (exec_workers_length _ _ _ _ Hi). exact Hlen.
Qed.

(** ** A thread that has returned stays so *)

Lemma exec_other c i j s s' :
  exec c i s = Some s' -> i <> j -> workers s' !! j = workers s !! j.
Proof.
  intros H Hne. exec_cases H; simpl in H;
    repeat match type of H with
           | context [if ?b then _ else _] => destruct b
           | context [match ?o with Some _ => _ | None => _ end] => destruct o
           end;
    try discriminate; injection H as <-; simpl;
    apply list_lookup_insert_ne; exact Hne.
Qed.

Lemma done_stays c i s s' :
  rtc (step c) s s' -> workers s !! i = Some Done -> workers s' !! i = Some Done.
Proof.
  induction 1 as [s | s y s' [j Hj] _ IH]; intros Hd; [exact Hd|].
  apply IH. destruct (decide (j = i)) as [->|Hne].
  - rewrite (exec_Done _ _ _ Hd) in Hj. discriminate Hj.
  - rewrite (exec_other _ _ _ _ _ Hj Hne). exact Hd.
Qed.

(** ** One thread: no update is lost *)

Lemma hist_sum_insert (h : list Z) : forall i v x,
  h !! i = Some v -> hist_sum (<[i := x]> h) = hist_sum h - v + x.
Proof.
  induction h as [|y h IH]; intros [|i] v x Hi; simpl in *; try discriminate.
  - injection Hi as ->. lia.
  - rewrite (IH i v x Hi). lia.
Qed.

Lemma hist_sum_nonneg (h : list Z) :
  Forall (fun v => 0 <= v) h -> 0 <= hist_sum h.
Proof. induction 1; simpl; lia. Qed.

Lemma hist_entry_le_sum (h : list Z) : forall i v,
  Forall (fun v => 0 <= v) h -> h !! i = Some v -> 0 <= v <= hist_sum h.
Proof.
  induction h as [|y h IH]; intros i v Hpos Hi; [discriminate|].
  apply Forall_cons in Hpos as [Hy Hpos].
  pose proof (hist_sum_nonneg h Hpos).
  destruct i as [|i]; simpl in *.
  - injection Hi as ->. lia.
  - specialize (IH i v Hpos Hi). lia.
Qed.

Lemma countdown_length k : length (countdown k) = k.
Proof. induction k as [|k IH]; [reflexivity|]. cbn [countdown length]. lia. Qed.

Lemma init_serial c : T c = 1 -> serial_inv (init c).
Proof.
  intros HT. unfold init. split; cbn [histogram workers claimed].
  - apply Forall_replicate. lia.
  - exists AtClaim. rewrite HT. split; [reflexivity|]. vm_compute. reflexivity.
Qed.

Lemma exec_serial c i s s' :
  T c = 1 -> N c < INT_MAX -> reachable c s ->
  serial_inv s -> exec c i s = Some s' -> serial_inv s'.
Proof.
  intros HT HN Hr [Hpos (w & Hws & Hsum)] He.
  assert (Hnw : Z.max 0 (N c) + Z.max 0 (T c) <= INT_MAX)
    by (unfold INT_MAX in *; lia).
  assert (Hi0 : i = O).
  { unfold exec in He. destruct (workers s !! i) eqn:Hw; [|discriminate].
    apply lookup_lt_Some in Hw. rewrite Hws in Hw. simpl in Hw. lia. }
  subst i.
  destruct (reachable_claims c Hnw s Hr) as (k & Hlog & _ & Hbound & _).
  unfold exec in He. rewrite Hws in He. cbn [lookup list_lookup] in He.
  destruct w as [| num st | num st | num st | num st v |]; [ | | | | | discriminate].
  - cbn [fetch_add] in He.
    destruct (COUNTER s >? N c); injection He as <-;
      (split; [exact Hpos|]; eexists;
       cbn [histogram claimed workers set_worker]; rewrite Hws;
       split; [reflexivity|]; cbn [length]; lia).
  - destruct (use_locks c); [destruct (mtx s); [discriminate|]|];
      injection He as <-;
      (split; [exact Hpos|]; eexists; simpl; rewrite Hws;
       split; [reflexivity|]; simpl; exact Hsum).
  - injection He as <-.
    split; [exact Hpos|]. eexists. simpl. rewrite Hws.
    split; [reflexivity|]. simpl. exact Hsum.
  - destruct (st <=? 1000) eqn:Hle.
    + unfold hist_read in He. destruct (st <? 0); [discriminate|].
      destruct (histogram s !! Z.to_nat st) as [v|] eqn:Hv; [|discriminate].
      injection He as <-.
      split; [exact Hpos|]. eexists. simpl. rewrite Hws.
      split; [reflexivity|]. simpl. split; [exact Hsum | exact Hv].
    + exfalso.
      destruct (reachable_shape c s Hr) as (_ & _ & Hl).
      rewrite Hws in Hl. apply Forall_cons in Hl as [[_ ->] _].
      pose proof (compute_stopping_time_bounds num). apply Z.leb_gt in Hle. lia.
  - destruct Hsum as [Hsum Hv].
    pose proof (hist_entry_le_sum _ _ _ Hpos Hv) as Hvb.
    assert (Hk : Z.of_nat k <= Z.max 0 (N c)).
    { rewrite Hws in Hbound. simpl in Hbound. lia. }
    assert (Hlen : Z.of_nat (length (claimed s)) = Z.of_nat k)
      by (rewrite Hlog, countdown_length; reflexivity).
    assert (Hwrap : wrap32 (v + 1) = v + 1).
    { apply wrap32_id. unfold in_int, INT_MIN, INT_MAX in *. lia. }
    injection He as <-. split; simpl.
    + rewrite Hwrap. apply Forall_insert; [exact Hpos | lia].
    + eexists. rewrite Hws. split; [reflexivity|]. simpl.
      rewrite (hist_sum_insert _ _ v _ Hv), Hwrap. lia.
Qed.

(** X21.  With one thread and [N < INT_MAX], every full run ends with the
    sum of the histogram equal to the size of the range. *)
Lemma single_thread_sum c s :
  T c = 1 -> N c < INT_MAX -> reachable c s -> all_done s ->
  hist_sum (histogram s) = Z.max 0 (N c).
Proof.
  intros HT HN Hr Hd.
  assert (Hnw : Z.max 0 (N c) + Z.max 0 (T c) <= INT_MAX)
    by (unfold INT_MAX in *; lia).
  assert (Hser : serial_inv s).
  { revert s Hr Hd.
    assert (Hall : forall s, reachable c s -> serial_inv s).
    { apply reachable_ind; [apply init_serial; exact HT|].
      intros s s' i Hr Hs He. eapply exec_serial; eassumption. }
    intros s Hr _. apply Hall. exact Hr. }
  destruct Hser as [Hpos (w & Hws & Hsum)].
  apply hist_sum_nonneg in Hpos.
  destruct (reachable_claims c Hnw s Hr) as (k & Hlog & _ & Hbound & Hdone).
  unfold all_done in Hd. rewrite Hws in Hd, Hbound, Hdone.
  apply Forall_cons in Hd as [-> _].
  specialize (Hdone ltac:(apply list_elem_of_here)).
  rewrite Hlog, countdown_length in Hsum. simpl in Hbound. lia.
Qed.

(** * The claims *)

(** ** The stopping-time function *)

(** Where the loop is right: for an [n] whose Collatz sequence stays
    within the 32-bit range until it reaches 1, or for 1000 steps if it
    does not, [compute_stopping_time n] is the exact number [s <= 1000] of
    steps after which the sequence first reaches 1, and it is 1000 when 1
    is not reached within 1000 steps. *)
Theorem compute_stopping_time_exact (n : Z) :
  trajectory_fits 1000 n = true ->
  (forall s, (s <= 1000)%nat -> first_reaches_one n s ->
     compute_stopping_time n = Z.of_nat s) /\
  (not_reached_within n 1000 -> compute_stopping_time n = 1000) /\
  compute_stopping_time 1 = 0.
Proof.
  intros Hfits.
  assert (Href : compute_stopping_time n = reference_stopping_time 1000 n).
  { unfold compute_stopping_time.
    rewrite (stopping_loop_reference 1000 n 0); [lia | lia | exact Hfits]. }
  split; [|split].
  - intros s Hs Hfirst. rewrite Href. apply reference_first; assumption.
  - intros Hnot. rewrite Href, reference_capped; [lia | exact Hnot].
  - reflexivity.
Qed.

Lemma compute_stopping_time_exact_witness :
  compute_stopping_time 27 = 111 /\ compute_stopping_time 0 = 1000.
Proof.
  split.
  - apply (proj1 (compute_stopping_time_exact 27 eq_refl) 111%nat); [lia|].
    apply first_reaches_oneb_sound. vm_compute. reflexivity.
  - apply (proj1 (proj2 (compute_stopping_time_exact 0 eq_refl))).
    intros k _. rewrite collatz_iter_zero. lia.
Defined.

(** C3, at [n = 113383].  The Collatz sequence of 113383 first reaches 1
    after 247 steps, which is what the function is documented to return;
    but [3 * n + 1] overflows the [int] on the way, the 32-bit value turns
    negative, the loop never meets 1 and returns the cap 1000. *)
Lemma compute_stopping_time_113383 :
  1 <= 113383 /\ (247 <= 1000)%nat /\ first_reaches_one 113383 247 /\
  compute_stopping_time 113383 = 1000 /\
  compute_stopping_time 113383 <> Z.of_nat 247.
Proof.
  split; [lia|]. split; [lia|]. split; [|split].
  - apply first_reaches_oneb_sound. vm_compute. reflexivity.
  - vm_compute. reflexivity.
  - vm_compute. discriminate.
Qed.

(** C10.  The loop of [compute_stopping_time] ends for every input, also
    [n <= 0]: the guard fails after [k <= 1000] iterations, the result is
    the value of [steps] there, which is [k] and lies in [0, 1000]; and
    [compute_stopping_time 0 = 1000]. *)
Theorem compute_stopping_time_total (n : Z) :
  (exists k : nat, (k <= 1000)%nat /\
     (forall j, (j < k)%nat ->
        loop_cond (fst (loop_iter j (n, 0))) (snd (loop_iter j (n, 0))) = true) /\
     loop_cond (fst (loop_iter k (n, 0))) (snd (loop_iter k (n, 0))) = false /\
     compute_stopping_time n = snd (loop_iter k (n, 0)) /\
     compute_stopping_time n = Z.of_nat k) /\
  0 <= compute_stopping_time n <= 1000 /\
  compute_stopping_time 0 = 1000.
Proof.
  split; [|split].
  - destruct (stopping_loop_iter 1000 n 0) as (k & Hk & Hbefore & Hat & Hres & Hsnd);
      [lia|].
    exists k. unfold compute_stopping_time.
    repeat split; [exact Hk | exact Hbefore | exact Hat | exact Hres |].
    rewrite Hres, Hsnd. lia.
  - apply compute_stopping_time_bounds.
  - vm_compute. reflexivity.
Qed.

(** C5.  [compute_stopping_time n] lies in [0, 1000] for every [n]; so in
    every reachable state a worker that is about to update the histogram
    passes the guard [stopping_time <= 1000], its index is inside the
    1001-entry vector, and the step loads the entry. *)
Theorem stopping_time_indexes_histogram :
  (forall n, 0 <= compute_stopping_time n <= 1000) /\
  (forall c s i num st,
     reachable c s -> workers s !! i = Some (AtUpdate num st) ->
     st = compute_stopping_time num /\
     (st <=? 1000) = true /\
     (Z.to_nat st < length (histogram s))%nat /\
     length (histogram s) = 1001%nat /\
     exists v, hist_read (histogram s) st = Some v /\
               exec c i s = Some (set_worker i (AtStore num st v) s)).
Proof.
  split; [exact compute_stopping_time_bounds|].
  intros c s i num st Hr Hw.
  destruct (reachable_shape c s Hr) as (Hh & _ & Hl).
  rewrite Forall_lookup in Hl. destruct (Hl i _ Hw) as [_ Hst].
  pose proof (compute_stopping_time_bounds num) as Hb. rewrite <- Hst in Hb.
  assert (Hle : (st <=? 1000) = true) by (apply Z.leb_le; lia).
  assert (Hlt : (Z.to_nat st < length (histogram s))%nat) by lia.
  destruct (lookup_lt_is_Some_2 _ _ Hlt) as [v Hv].
  assert (Hread : hist_read (histogram s) st = Some v).
  { unfold hist_read. replace (st <? 0) with false by (symmetry; apply Z.ltb_ge; lia).
    exact Hv. }
  repeat split; [exact Hst | exact Hle | exact Hlt | exact Hh |].
  exists v. split; [exact Hread|].
  unfold exec. rewrite Hw, Hle, Hread. reflexivity.
Qed.

Lemma stopping_time_indexes_histogram_witness :
  exists v, exec (Config 1 1 true) 0 loading_1_1
            = Some (set_worker 0 (AtStore 1 0 v) loading_1_1).
Proof.
  destruct (proj2 stopping_time_indexes_histogram (Config 1 1 true) loading_1_1
              O 1 0) as (_ & _ & _ & _ & v & _ & Hv).
  - apply (run_reachable _ [0; 0; 0]%nat). vm_compute. reflexivity.
  - reflexivity.
  - exists v. exact Hv.
Defined.

(** ** The worker loop *)

(** C6.  In every reachable state the value a worker is processing is at
    most [N]; and when a claim returns a value above [N] the worker goes
    straight to [Done] without computing a stopping time or touching the
    histogram, the other threads are left as they were, and from then on
    the worker never moves again (so it claims nothing more). *)
Theorem worker_stops_beyond_N c s i :
  reachable c s ->
  (forall w, workers s !! i = Some w -> locals_ok c w) /\
  (workers s !! i = Some AtClaim -> N c < COUNTER s ->
   exists s',
     exec c i s = Some s' /\
     workers s' = <[i := Done]> (workers s) /\
     workers s' !! i = Some Done /\
     histogram s' = histogram s /\
     claimed s' = COUNTER s :: claimed s /\
     forall s'', rtc (step c) s' s'' ->
       workers s'' !! i = Some Done /\ exec c i s'' = None).
Proof.
  intros Hr. split.
  - intros w Hw. destruct (reachable_shape c s Hr) as (_ & _ & Hl).
    rewrite Forall_lookup in Hl. exact (Hl i w Hw).
  - intros Hw Hgt.
    eexists. split; [|split; [|split; [|split; [|split]]]].
    + unfold exec. rewrite Hw. cbn [fetch_add].
      replace (COUNTER s >? N c) with true by (symmetry; apply Z.gtb_lt; lia).
      reflexivity.
    + reflexivity.
    + simpl. apply list_lookup_insert_eq. eapply lookup_lt_Some; exact Hw.
    + reflexivity.
    + reflexivity.
    + intros s'' Hs''.
      assert (Hd : workers s'' !! i = Some Done).
      { eapply done_stays; [exact Hs''|]. simpl.
        apply list_lookup_insert_eq. eapply lookup_lt_Some; exact Hw. }
      split; [exact Hd | apply exec_Done; exact Hd].
Qed.

Lemma worker_stops_beyond_N_witness :
  exists s', exec (Config 1 1 true) 0 reclaiming_1_1 = Some s' /\
             workers s' !! 0%nat = Some Done /\
             histogram s' = histogram reclaiming_1_1.
Proof.
  assert (Hr : reachable (Config 1 1 true) reclaiming_1_1).
  { apply (run_reachable _ [0; 0; 0; 0; 0]%nat). vm_compute. reflexivity. }
  destruct (proj2 (worker_stops_beyond_N (Config 1 1 true) reclaiming_1_1 O Hr))
    as (s' & He & _ & Hd & Hh & _).
  - reflexivity.
  - simpl. lia.
  - exists s'. split; [exact He | split; [exact Hd | exact Hh]].
Defined.

(** C7.  [compute_stopping_time] maps 1..10 to [0,1,7,2,5,8,16,3,19,6];
    and every full run with [N = 10], [T = 1] and locks ends with the
    values claimed in the order 1..10 (then 11), a histogram of 1001
    entries that holds 1 at the indices 0,1,2,3,5,6,7,8,16,19 and 0 at the
    others, and sum 10. *)
Theorem run_10_1 :
  map compute_stopping_time [1; 2; 3; 4; 5; 6; 7; 8; 9; 10]
    = [0; 1; 7; 2; 5; 8; 16; 3; 19; 6] /\
  forall s, reachable (Config 10 1 true) s -> all_done s ->
    claimed s = [11; 10; 9; 8; 7; 6; 5; 4; 3; 2; 1] /\
    length (histogram s) = 1001%nat /\
    (forall i, (i <= 1000)%nat ->
       histogram s !! i =
       Some (if bool_decide (i ∈ [0; 1; 2; 3; 5; 6; 7; 8; 16; 19]%nat) then 1 else 0)) /\
    hist_sum (histogram s) = 10.
Proof.
  split; [vm_compute; reflexivity|].
  intros s Hr Hd.
  assert (Hfin : run (Config 10 1 true) sched_10_1 (init (Config 10 1 true))
                 = Some final_10_1) by (vm_compute; reflexivity).
  assert (s = final_10_1) as ->.
  { apply (single_final_unique (Config 10 1 true) (init (Config 10 1 true)));
      [exact Hr | reflexivity | apply run_rtc with sched_10_1; exact Hfin
      | exact Hd | repeat constructor]. }
  split; [reflexivity|]. split; [vm_compute; reflexivity|].
  split; [|vm_compute; reflexivity].
  intros i Hi.
  assert (Hall : forallb (fun i =>
            bool_decide (histogram final_10_1 !! i =
              Some (if bool_decide (i ∈ [0; 1; 2; 3; 5; 6; 7; 8; 16; 19]%nat)
                    then 1 else 0)))
            (seq 0 1001) = true) by (vm_compute; reflexivity).
  rewrite forallb_forall in Hall. specialize (Hall i).
  apply bool_decide_eq_true in Hall; [exact Hall|].
  apply list_elem_of_In, elem_of_seq. lia.
Qed.

Lemma run_10_1_witness :
  reachable (Config 10 1 true) final_10_1 /\ all_done final_10_1 /\
  hist_sum (histogram final_10_1) = 10.
Proof.
  assert (Hr : reachable (Config 10 1 true) final_10_1).
  { apply (run_reachable _ sched_10_1). vm_compute. reflexivity. }
  assert (Hd : all_done final_10_1) by (repeat constructor).
  split; [exact Hr|]. split; [exact Hd|].
  exact (proj2 (proj2 (proj2 (proj2 run_10_1 final_10_1 Hr Hd)))).
Defined.

(** C8.  With [N < 1] (and [T] an [int]) nothing is processed: in every
    reachable state each value claimed so far is greater than [N], each
    worker is either still to make its first claim or has returned, and
    the histogram is all zeros with sum 0. *)
Theorem empty_range c s :
  N c < 1 -> in_int (T c) -> reachable c s ->
  Forall (fun v => N c < v) (claimed s) /\
  Forall idle (workers s) /\
  histogram s = replicate 1001 0 /\
  hist_sum (histogram s) = 0.
Proof.
  intros HN HT Hr.
  assert (Hnw : Z.max 0 (N c) + Z.max 0 (T c) <= INT_MAX).
  { unfold in_int, INT_MIN, INT_MAX in *. lia. }
  split.
  { destruct (reachable_claims c Hnw s Hr) as (k & -> & _).
    apply Forall_forall. intros v Hv. apply elem_of_countdown in Hv. lia. }
  assert (Hinv : Forall idle (workers s) /\ histogram s = replicate 1001 0).
  { revert s Hr. apply reachable_ind.
    - split; [|reflexivity]. apply Forall_replicate. left. reflexivity.
    - intros s s' i Hr [Hidle Hz] He.
      assert (Hi : forall w, workers s !! i = Some w -> idle w).
      { intros w Hw. rewrite Forall_lookup in Hidle. exact (Hidle i w Hw). }
      exec_cases He; specialize (Hi _ eq_refl);
        try (destruct Hi as [Hi|Hi]; discriminate Hi).
      destruct (claim_value c Hnw s i Hr Hw) as (k & _ & Hk & _).
      cbn [fetch_add] in He.
      replace (COUNTER s >? N c) with true in He
        by (symmetry; apply Z.gtb_lt; lia).
      injection He as <-. simpl. split; [|exact Hz].
      apply Forall_insert; [exact Hidle | right; reflexivity]. }
  destruct Hinv as [Hidle Hz].
  split; [exact Hidle|]. split; [exact Hz|].
  rewrite Hz. vm_compute. reflexivity.
Qed.

Lemma empty_range_witness :
  Forall (fun v => 0 < v) (claimed final_0_2) /\
  hist_sum (histogram final_0_2) = 0.
Proof.
  assert (H : N (Config 0 2 true) < 1 /\ in_int (T (Config 0 2 true)) /\
              reachable (Config 0 2 true) final_0_2).
  { split; [simpl; lia|]. split; [vm_compute; split; discriminate|].
    apply (run_reachable _ [1; 0]%nat). vm_compute. reflexivity. }
  destruct H as (HN & HT & Hr).
  destruct (empty_range (Config 0 2 true) final_0_2 HN HT Hr) as (Hc & _ & _ & Hs).
  split; [exact Hc | exact Hs].
Defined.

(** ** The shared counter *)

(** C4, amended.  When [N >= 1], [T >= 1] and [N + T <= INT_MAX] (no claim
    of the run returns a wrapped value), at the end of every full run no
    value has been returned by two claims and every value of [1, N] has
    been returned by one, whatever the schedule. *)
Theorem claims_cover_range_once c s :
  1 <= N c -> 1 <= T c -> N c + T c <= INT_MAX ->
  reachable c s -> all_done s ->
  NoDup (claimed s) /\
  (forall v, 1 <= v <= N c -> v ∈ claimed s) /\
  (forall v, v ∈ claimed s -> 1 <= v <= N c + T c).
Proof.
  intros HN HT Hsum Hr Hd.
  assert (Hnw : Z.max 0 (N c) + Z.max 0 (T c) <= INT_MAX) by lia.
  destruct (reachable_claims c Hnw s Hr) as (k & Hlog & _ & Hbound & Hdone).
  destruct (reachable_shape c s Hr) as (_ & Hlen & _).
  pose proof (count_done_le (workers s)) as Hcd.
  assert (Hin : Done ∈ workers s).
  { destruct (workers s) as [|w ws] eqn:Hws; [simpl in Hlen; lia|].
    unfold all_done in Hd. rewrite Hws in Hd.
    apply Forall_cons in Hd as [-> _]. apply list_elem_of_here. }
  specialize (Hdone Hin). rewrite Hlog.
  split; [apply NoDup_countdown|].
  split; intros v Hv.
  - apply elem_of_countdown. lia.
  - apply elem_of_countdown in Hv. lia.
Qed.

Lemma claims_cover_range_once_witness :
  NoDup (claimed final_2_1) /\ (forall v, 1 <= v <= 2 -> v ∈ claimed final_2_1).
Proof.
  assert (Hr : reachable (Config 2 1 true) final_2_1).
  { apply (run_reachable _ (replicate 11 0%nat)). vm_compute. reflexivity. }
  assert (Hd : all_done final_2_1) by (repeat constructor).
  assert (HN : 1 <= N (Config 2 1 true)) by (simpl; lia).
  assert (HT : 1 <= T (Config 2 1 true)) by (simpl; lia).
  assert (Hs : N (Config 2 1 true) + T (Config 2 1 true) <= INT_MAX)
    by (vm_compute; discriminate).
  destruct (claims_cover_range_once (Config 2 1 true) final_2_1 HN HT Hs Hr Hd)
    as (Hnd & Hall & _).
  split; [exact Hnd | exact Hall].
Defined.

(** ** The mutex and the histogram *)

(** C1, at [N = 2], [T = 2] with locks: a reachable state in which both
    workers have loaded their histogram entry and not yet stored it, and
    the mutex is free. *)
Theorem increments_interleave_with_locks :
  reachable (Config 2 2 true) both_storing /\
  in_increment both_storing 0 /\ in_increment both_storing 1 /\
  ~ holds_mtx both_storing 0 /\ ~ holds_mtx both_storing 1 /\
  mtx both_storing = None.
Proof.
  split; [apply (run_reachable _ sched_both_storing); vm_compute; reflexivity|].
  split; [exists 1, 0, 0; reflexivity|].
  split; [exists 2, 1, 0; reflexivity|].
  repeat split; discriminate.
Qed.

(** C2, at [N = 13], [T = 2] with locks: a full run whose histogram sums
    to 12.  The workers that claimed 12 and 13 (stopping time 9 both) load
    entry 9 one after the other and then store 1 one after the other. *)
Theorem sum_lost_update_with_locks :
  exists s,
    run (Config 13 2 true) sched_lost_update (init (Config 13 2 true)) = Some s /\
    reachable (Config 13 2 true) s /\ all_done s /\
    histogram s !! 9%nat = Some 1 /\
    compute_stopping_time 12 = 9 /\ compute_stopping_time 13 = 9 /\
    hist_sum (histogram s) = 12.
Proof.
  destruct (run (Config 13 2 true) sched_lost_update (init (Config 13 2 true)))
    as [s|] eqn:Hrun; [|vm_compute in Hrun; discriminate Hrun].
  exists s. split; [reflexivity|].
  split; [apply (run_reachable _ sched_lost_update); exact Hrun|].
  vm_compute in Hrun. injection Hrun as <-.
  split; [repeat constructor|].
  repeat split; vm_compute; reflexivity.
Qed.

(** ** The command line *)

(** C9, amended.  [main] reports the usage error, with exit status 1,
    exactly when fewer than two arguments follow the program name; with two
    or more it goes on to launch the workers, with [N = atoi argv[1]] and
    [T = atoi argv[2]], whether or not these strings are integers. *)
Theorem main_usage (argv : list string) :
  ((length argv < 3)%nat -> main argv = UsageError 1) /\
  ((3 <= length argv)%nat ->
     exists locks,
       main argv = Launched (Config (atoi (nth 1 argv EmptyString))
                                    (atoi (nth 2 argv EmptyString)) locks)).
Proof.
  unfold main. split; intros Hlen.
  - replace (Z.of_nat (length argv) <? 3) with true
      by (symmetry; apply Z.ltb_lt; lia).
    reflexivity.
  - replace (Z.of_nat (length argv) <? 3) with false
      by (symmetry; apply Z.ltb_ge; lia).
    eexists. reflexivity.
Qed.

Lemma main_usage_witness :
  main ["./mt-collatz"; "10"]%string = UsageError 1 /\
  exists locks, main ["./mt-collatz"; "10"; "4"]%string = Launched (Config 10 4 locks).
Proof.
  split.
  - apply (proj1 (main_usage ["./mt-collatz"; "10"]%string)). simpl. lia.
  - apply (proj2 (main_usage ["./mt-collatz"; "10"; "4"]%string)). simpl. lia.
Defined.

(** C9 as stated fails at [./mt-collatz abc 4]: the first argument is not
    an integer, yet there is no usage error; the workers are launched, with
    [N = 0]. *)
Lemma main_accepts_non_integer :
  syntactically_valid_integer "abc" = false /\
  main ["./mt-collatz"; "abc"; "4"]%string = Launched (Config 0 4 true) /\
  main ["./mt-collatz"; "abc"; "4"]%string <> UsageError 1.
Proof.
  split; [vm_compute; reflexivity|].
  split; [vm_compute; reflexivity | vm_compute; discriminate].
Qed.

(** ** Runs in which the counter wraps *)

Lemma lookup_set_worker i w s :
  (i < length (workers s))%nat -> workers (set_worker i w s) !! i = Some w.
Proof. intros Hlt. simpl. apply list_lookup_insert_eq. exact Hlt. Qed.

(** One whole iteration of the worker loop by thread [i], alone. *)
Lemma solo_iteration c i s :
  workers s !! i = Some AtClaim -> mtx s = None ->
  length (histogram s) = 1001%nat -> COUNTER s <= N c ->
  exists s', rtc (step c) s s' /\
    workers s' = workers s /\ mtx s' = None /\
    length (histogram s') = 1001%nat /\
    COUNTER s' = wrap32 (COUNTER s + 1) /\
    claimed s' = COUNTER s :: claimed s.
Proof.
  intros Hw Hm Hh Hle.
  pose proof (lookup_lt_Some _ _ _ Hw) as Hlt.
  set (num := COUNTER s). set (st := compute_stopping_time num).
  pose proof (compute_stopping_time_bounds num) as Hb. fold st in Hb.
  assert (Hidx : (Z.to_nat st < length (histogram s))%nat) by lia.
  destruct (lookup_lt_is_Some_2 _ _ Hidx) as [v Hv].
  set (s1 := set_worker i (AtGuard num st) (snd (fetch_add s))).
  set (s3 := set_worker i (AtUpdate num st) s1).
  set (s4 := set_worker i (AtStore num st v) s3).
  set (s5 := set_worker i AtClaim
               (set_histogram (<[Z.to_nat st := wrap32 (v + 1)]> (histogram s4)) s4)).
  assert (H1 : exec c i s = Some s1).
  { unfold exec. rewrite Hw. cbn [fetch_add].
    replace (COUNTER s >? N c) with false by (symmetry; rewrite Z.gtb_ltb; apply Z.ltb_ge; lia).
    reflexivity. }
  assert (H13 : rtc (step c) s1 s3).
  { destruct (use_locks c) eqn:Hl.
    - set (s2 := set_worker i (InScope num st) (set_mtx (Some i) s1)).
      apply rtc_l with s2; [|apply rtc_once].
      + exists i. unfold exec. rewrite Hl. subst s1.
        rewrite lookup_set_worker by exact Hlt. cbn [mtx set_worker fetch_add snd].
        rewrite Hm. reflexivity.
      + exists i. unfold exec. subst s2.
        rewrite lookup_set_worker by (simpl; rewrite length_insert; exact Hlt).
        subst s3 s1. unfold set_worker, set_mtx. simpl.
        rewrite list_insert_insert_eq, Hm. reflexivity.
    - apply rtc_once. exists i. unfold exec. rewrite Hl. subst s1.
      rewrite lookup_set_worker by exact Hlt. reflexivity. }
  assert (H34 : exec c i s3 = Some s4).
  { unfold exec. subst s3.
    rewrite lookup_set_worker by (simpl; rewrite length_insert; exact Hlt).
    replace (st <=? 1000) with true by (symmetry; apply Z.leb_le; lia).
    unfold hist_read.
    replace (st <? 0) with false by (symmetry; apply Z.ltb_ge; lia).
    cbn [histogram set_worker]. subst s1. cbn [histogram set_worker fetch_add snd].
    rewrite Hv. reflexivity. }
  assert (H45 : exec c i s4 = Some s5).
  { unfold exec. subst s4.
    rewrite lookup_set_worker
      by (simpl; rewrite !length_insert; exact Hlt).
    reflexivity. }
  exists s5. split.
  { apply rtc_l with s1; [exists i; exact H1|].
    eapply rtc_trans; [exact H13|].
    apply rtc_l with s4; [exists i; exact H34|].
    apply rtc_once. exists i. exact H45. }
  subst s5 s4 s3 s1. simpl.
  rewrite !list_insert_insert_eq, length_insert.
  repeat split; [apply list_insert_id; exact Hw | exact Hm | exact Hh].
Qed.

(** [d] iterations in a row, while the claimed values stay at most [N]
    and the counter does not wrap. *)
Lemma solo_iterations c i :
  N c < INT_MAX ->
  forall d, 0 <= d -> forall s,
  workers s !! i = Some AtClaim -> mtx s = None ->
  length (histogram s) = 1001%nat ->
  in_int (COUNTER s) -> COUNTER s + d <= N c + 1 ->
  exists s', rtc (step c) s s' /\
    workers s' = workers s /\ mtx s' = None /\
    length (histogram s') = 1001%nat /\
    COUNTER s' = COUNTER s + d /\
    exists l, claimed s' = l ++ claimed s /\ (0 < d -> COUNTER s ∈ l).
Proof.
  intros HN.
  apply (natlike_ind (fun d => forall s,
    workers s !! i = Some AtClaim -> mtx s = None ->
    length (histogram s) = 1001%nat ->
    in_int (COUNTER s) -> COUNTER s + d <= N c + 1 ->
    exists s', rtc (step c) s s' /\
      workers s' = workers s /\ mtx s' = None /\
      length (histogram s') = 1001%nat /\
      COUNTER s' = COUNTER s + d /\
      exists l, claimed s' = l ++ claimed s /\ (0 < d -> COUNTER s ∈ l))).
  - intros s Hw Hm Hh Hin Hle. exists s.
    repeat split; [apply rtc_refl | exact Hm | exact Hh | lia |].
    exists []. split; [reflexivity | lia].
  - intros d Hd IH s Hw Hm Hh Hin Hle.
    destruct (solo_iteration c i s Hw Hm Hh ltac:(lia))
      as (s1 & Hr1 & Hw1 & Hm1 & Hh1 & Hc1 & Hl1).
    rewrite wrap32_id in Hc1 by (unfold in_int, INT_MIN, INT_MAX in *; lia).
    destruct (IH s1) as (s' & Hr' & Hw' & Hm' & Hh' & Hc' & l & Hl' & _).
    + rewrite Hw1. exact Hw.
    + exact Hm1.
    + exact Hh1.
    + rewrite Hc1. unfold in_int, INT_MIN, INT_MAX in *. lia.
    + lia.
    + exists s'.
      repeat split; [eapply rtc_trans; eassumption | congruence
                    | exact Hm' | exact Hh' | lia |].
      exists (l ++ [COUNTER s]). split.
      * rewrite Hl', Hl1, <- app_assoc. reflexivity.
      * intros _. apply elem_of_app. right. apply list_elem_of_here.
Qed.

(** C4 as stated fails at [N = INT_MAX - 1], [T = 2].  Thread 0 works
    through 1..N and returns on claiming [INT_MAX]; that claim wraps the
    counter to [INT_MIN], which is not above [N], so thread 1 keeps
    claiming through the negative numbers and then through 1..N a second
    time before it meets [INT_MAX] too.  In the final log the value 1 has
    been handed out twice. *)
Lemma claims_repeat_after_wrap :
  1 <= N config_wrap /\ 1 <= T config_wrap /\
  exists s, reachable config_wrap s /\ all_done s /\
    (exists later earlier,
       claimed s = later ++ earlier /\ 1 ∈ later /\ 1 ∈ earlier) /\
    ~ NoDup (claimed s).
Proof.
  split; [vm_compute; discriminate|]. split; [vm_compute; discriminate|].
  set (c := config_wrap).
  assert (HN : N c < INT_MAX) by (vm_compute; reflexivity).
  assert (HNv : N c = INT_MAX - 1) by reflexivity.
  (* thread 0: 1..N *)
  destruct (solo_iterations c O HN (N c) ltac:(rewrite HNv; vm_compute; discriminate)
              (init c))
    as (s1 & Hr1 & Hw1 & Hm1 & Hh1 & Hc1 & l1 & Hl1 & Hin1);
    [reflexivity | reflexivity | reflexivity | vm_compute; split; discriminate
    | simpl; lia |].
  change (COUNTER (init c)) with 1 in Hc1, Hin1.
  change (claimed (init c)) with (@nil Z) in Hl1. rewrite app_nil_r in Hl1.
  change (workers (init c)) with [AtClaim; AtClaim] in Hw1.
  specialize (Hin1 ltac:(rewrite HNv; vm_compute; reflexivity)).
  (* thread 0 claims INT_MAX and returns *)
  set (sA := set_worker 0 Done (snd (fetch_add s1))).
  assert (HA : exec c 0 s1 = Some sA).
  { unfold exec. rewrite Hw1. cbn [lookup list_lookup fetch_add].
    replace (COUNTER s1 >? N c) with true
      by (symmetry; apply Z.gtb_lt; lia).
    reflexivity. }
  assert (HcA : COUNTER sA = INT_MIN).
  { subst sA. cbn [COUNTER set_worker fetch_add snd]. rewrite Hc1, HNv.
    vm_compute. reflexivity. }
  assert (HwA : workers sA = [Done; AtClaim]).
  { subst sA. cbn [workers set_worker fetch_add snd]. rewrite Hw1. reflexivity. }
  assert (HlA : claimed sA = INT_MAX :: l1).
  { subst sA. cbn [claimed set_worker fetch_add snd]. rewrite Hc1, Hl1, HNv.
    f_equal. }
  (* thread 1: INT_MIN..0 *)
  destruct (solo_iterations c 1%nat HN (1 - INT_MIN) ltac:(vm_compute; discriminate) sA)
    as (s2 & Hr2 & Hw2 & Hm2 & Hh2 & Hc2 & l2 & Hl2 & _).
  { rewrite HwA. reflexivity. }
  { exact Hm1. }
  { exact Hh1. }
  { rewrite HcA. vm_compute. split; discriminate. }
  { rewrite HcA, HNv. vm_compute. discriminate. }
  assert (Hc2' : COUNTER s2 = 1) by (rewrite Hc2, HcA; lia).
  (* thread 1: 1..N, again *)
  destruct (solo_iterations c 1%nat HN (N c) ltac:(rewrite HNv; vm_compute; discriminate) s2)
    as (s3 & Hr3 & Hw3 & Hm3 & Hh3 & Hc3 & l3 & Hl3 & Hin3).
  { rewrite Hw2, HwA. reflexivity. }
  { exact Hm2. }
  { exact Hh2. }
  { rewrite Hc2'. vm_compute. split; discriminate. }
  { rewrite Hc2'. lia. }
  rewrite Hc2' in Hin3, Hc3.
  specialize (Hin3 ltac:(rewrite HNv; vm_compute; reflexivity)).
  (* thread 1 claims INT_MAX and returns *)
  set (sB := set_worker 1 Done (snd (fetch_add s3))).
  assert (HB : exec c 1 s3 = Some sB).
  { unfold exec. rewrite Hw3, Hw2, HwA. cbn [lookup list_lookup fetch_add].
    replace (COUNTER s3 >? N c) with true
      by (symmetry; apply Z.gtb_lt; lia).
    reflexivity. }
  assert (HlB : claimed sB = (INT_MAX :: l3 ++ l2) ++ INT_MAX :: l1).
  { subst sB. cbn [claimed set_worker fetch_add snd].
    rewrite Hc3, Hl3, Hl2, HlA, HNv. simpl. rewrite <- app_assoc. f_equal. }
  assert (Hlater : 1 ∈ INT_MAX :: l3 ++ l2).
  { apply elem_of_cons. right. apply elem_of_app. left. exact Hin3. }
  assert (Hearlier : 1 ∈ INT_MAX :: l1).
  { apply elem_of_cons. right. exact Hin1. }
  exists sB. split; [|split; [|split]].
  - unfold reachable.
    eapply rtc_trans; [exact Hr1|].
    eapply rtc_l; [exists O; exact HA|].
    eapply rtc_trans; [exact Hr2|].
    eapply rtc_trans; [exact Hr3|].
    apply rtc_once. exists 1%nat. exact HB.
  - unfold all_done. subst sB. cbn [workers set_worker fetch_add snd].
    rewrite Hw3, Hw2, HwA. repeat constructor.
  - eexists _, _. split; [exact HlB | split; assumption].
  - rewrite HlB. intros Hnd. apply NoDup_app in Hnd as (_ & Hdisj & _).
    exact (Hdisj 1 Hlater Hearlier).
Qed.

(** * Further properties *)

(** ** More on [compute_stopping_time] *)

(** Starting the count one higher adds one to the result, up to the cap. *)
Lemma stopping_loop_shift (m : nat) : forall n steps,
  0 <= steps < 1000 -> 1000 - steps <= Z.of_nat m ->
  stopping_loop n (steps + 1) = Z.min 1000 (stopping_loop n steps + 1).
Proof.
  induction m as [|m IH]; intros n steps Hs Hm; [lia|].
  rewrite (stopping_loop_once n steps), (stopping_loop_once n (steps + 1)).
  unfold loop_cond.
  replace (steps <? 1000) with true by (symmetry; apply Z.ltb_lt; lia).
  destruct (n =? 1) eqn:H1; simpl; [lia|].
  destruct (steps + 1 <? 1000) eqn:Hlt.
  - apply Z.ltb_lt in Hlt. apply IH; lia.
  - apply Z.ltb_ge in Hlt.
    pose proof (stopping_loop_bounds (loop_body n) (steps + 1) ltac:(lia)). lia.
Qed.

Lemma loop_body_double n : loop_body (2 * n) = n.
Proof.
  unfold loop_body. rewrite (Z.mul_comm 2 n), Z.rem_mul by lia.
  rewrite Z.eqb_refl. apply Z.quot_mul. lia.
Qed.

Lemma compute_stopping_time_even n :
  compute_stopping_time (2 * n) = Z.min 1000 (compute_stopping_time n + 1).
Proof.
  unfold compute_stopping_time. rewrite (stopping_loop_once (2 * n) 0).
  unfold loop_cond.
  replace (2 * n =? 1) with false by (symmetry; apply Z.eqb_neq; lia).
  simpl negb. cbn [andb]. change (0 <? 1000) with true. cbv iota.
  rewrite loop_body_double.
  apply (stopping_loop_shift 1000 n 0); lia.
Qed.

(** X1.  The stopping time is 0 for the input 1 and for no other input. *)
Theorem stopping_time_zero_iff (n : Z) : compute_stopping_time n = 0 <-> n = 1.
Proof.
  unfold compute_stopping_time. rewrite stopping_loop_once.
  destruct (loop_cond n 0) eqn:Hc.
  - pose proof (stopping_loop_bounds (loop_body n) (0 + 1) ltac:(lia)).
    unfold loop_cond in Hc. apply andb_true_iff in Hc as [Hn _].
    apply negb_true_iff, Z.eqb_neq in Hn. split; [lia | contradiction].
  - unfold loop_cond in Hc. apply andb_false_iff in Hc as [Hn | Hs].
    + apply negb_false_iff, Z.eqb_eq in Hn. split; [intros _; exact Hn | reflexivity].
    + discriminate Hs.
Qed.

(** X2.  Doubling the input adds one step: when [2 * n] is an [int], the
    stopping time of [2 * n] is that of [n] plus one, held at the cap
    1000. *)
Theorem stopping_time_double (n : Z) :
  in_int (2 * n) ->
  compute_stopping_time (2 * n) = Z.min 1000 (compute_stopping_time n + 1).
Proof. intros _. apply compute_stopping_time_even. Qed.

Lemma stopping_time_double_witness :
  compute_stopping_time (2 * 27) = Z.min 1000 (compute_stopping_time 27 + 1).
Proof.
  apply stopping_time_double. vm_compute. split; discriminate.
Defined.

(** X3.  The stopping time of [2 ^ k] is [k], for every power of two that
    is an [int] ([0 <= k <= 30]). *)
Theorem stopping_time_power_of_two (k : Z) :
  0 <= k <= 30 -> compute_stopping_time (2 ^ k) = k.
Proof.
  intros [Hk0 Hk30]. revert Hk30.
  apply (natlike_ind (fun k => k <= 30 -> compute_stopping_time (2 ^ k) = k));
    [reflexivity | | exact Hk0].
  intros j Hj IH Hle.
  rewrite Z.pow_succ_r by exact Hj.
  rewrite compute_stopping_time_even, IH by lia. lia.
Qed.

Lemma stopping_time_power_of_two_witness : compute_stopping_time (2 ^ 10) = 10.
Proof. apply stopping_time_power_of_two. lia. Defined.

(** X4.  A result below the cap certifies that the loop reached 1: if
    [compute_stopping_time n = r < 1000], the variable [n] of the loop is
    1 after exactly [r] iterations and differs from 1 after each smaller
    number of iterations. *)
Theorem below_cap_reaches_one (n : Z) :
  compute_stopping_time n < 1000 ->
  fst (loop_iter (Z.to_nat (compute_stopping_time n)) (n, 0)) = 1 /\
  forall j, (j < Z.to_nat (compute_stopping_time n))%nat ->
    fst (loop_iter j (n, 0)) <> 1.
Proof.
  intros Hlt. unfold compute_stopping_time in *.
  destruct (stopping_loop_iter 1000 n 0) as (k & Hk & Hbefore & Hat & Hres & Hsnd);
    [lia|].
  rewrite Hres, Hsnd in Hlt. rewrite Hres, Hsnd.
  replace (Z.to_nat (0 + Z.of_nat k)) with k by lia.
  split.
  - unfold loop_cond in Hat. rewrite Hsnd in Hat.
    apply andb_false_iff in Hat as [Hn | Hs].
    + apply negb_false_iff, Z.eqb_eq in Hn. exact Hn.
    + apply Z.ltb_ge in Hs. lia.
  - intros j Hj. specialize (Hbefore j Hj). unfold loop_cond in Hbefore.
    apply andb_true_iff in Hbefore as [Hn _].
    apply negb_true_iff, Z.eqb_neq in Hn. exact Hn.
Qed.

Lemma below_cap_reaches_one_witness :
  fst (loop_iter (Z.to_nat (compute_stopping_time 27)) (27, 0)) = 1.
Proof.
  apply (proj1 (below_cap_reaches_one 27 ltac:(vm_compute; reflexivity))).
Defined.

Lemma collatz_iter_nonpos k : forall n, n <= 0 -> collatz_iter k n <= 0.
Proof.
  induction k as [|k IH]; intros n Hn; [exact Hn|].
  cbn [collatz_iter]. apply IH. unfold collatz_step.
  destruct (Z.even n) eqn:He.
  - apply Z.div_le_upper_bound; lia.
  - destruct (Z.eq_dec n 0) as [->|]; [discriminate He | lia].
Qed.

(** X5.  An input [n <= 0] whose sequence stays within the [int] range
    never reaches 1, and the result is the cap 1000. *)
Theorem stopping_time_nonpositive (n : Z) :
  n <= 0 -> trajectory_fits 1000 n = true -> compute_stopping_time n = 1000.
Proof.
  intros Hn Hfits. unfold compute_stopping_time.
  rewrite (stopping_loop_reference 1000 n 0); [|lia | exact Hfits].
  rewrite reference_capped; [lia|].
  intros k _. pose proof (collatz_iter_nonpos k n Hn). lia.
Qed.

Lemma stopping_time_nonpositive_witness : compute_stopping_time (-5) = 1000.
Proof. apply stopping_time_nonpositive; [lia | reflexivity]. Defined.

(** ** More on the mutex *)

Lemma init_scope c : scope_inv (init c).
Proof.
  intros i num st Hi. unfold init in Hi. cbn [workers] in Hi.
  apply lookup_replicate in Hi as [Hi _]. discriminate Hi.
Qed.

Lemma exec_scope c i s s' :
  mtx_inv s -> scope_inv s -> exec c i s = Some s' -> scope_inv s'.
Proof.
  intros Hm Hinv H.
  assert (Hlt : (i < length (workers s))%nat).
  { unfold exec in H. destruct (workers s !! i) eqn:Hw; [|discriminate].
    eapply lookup_lt_Some; exact Hw. }
  assert (Hkeep : forall w, mtx s' = mtx s ->
            workers s' = <[i := w]> (workers s) ->
            (forall num st, w <> InScope num st) ->
            scope_inv s').
  { intros w Hmx Hws Hnot j num st Hj. rewrite Hws in Hj. rewrite Hmx.
    destruct (decide (i = j)) as [->|Hne].
    - rewrite list_lookup_insert_eq in Hj by exact Hlt.
      injection Hj as Hj. exfalso. exact (Hnot _ _ Hj).
    - rewrite list_lookup_insert_ne in Hj by exact Hne. exact (Hinv _ _ _ Hj). }
  exec_cases H; simpl in H.
  - destruct (COUNTER s >? N c); injection H as <-;
      (eapply Hkeep; [reflexivity | reflexivity | intros ? ?; discriminate]).
  - destruct (use_locks c); [destruct (mtx s) eqn:Hmx; [discriminate|]|];
      injection H as <-.
    + intros j num' st' Hj. simpl in Hj |- *.
      destruct (decide (i = j)) as [->|Hne]; [reflexivity|].
      rewrite list_lookup_insert_ne in Hj by exact Hne.
      rewrite (Hinv _ _ _ Hj) in Hmx. discriminate Hmx.
    + eapply Hkeep; [reflexivity | reflexivity | intros ? ?; discriminate].
  - injection H as <-. intros j num' st' Hj. simpl in Hj. exfalso.
    destruct (decide (i = j)) as [->|Hne].
    + rewrite list_lookup_insert_eq in Hj by exact Hlt. discriminate Hj.
    + rewrite list_lookup_insert_ne in Hj by exact Hne.
      pose proof (Hinv _ _ _ Hj) as Hj'. pose proof (Hinv _ _ _ Hw) as Hi'.
      congruence.
  - destruct (_ <=? 1000); [destruct (hist_read _ _); [|discriminate]|];
      injection H as <-;
      (eapply Hkeep; [reflexivity | reflexivity | intros ? ?; discriminate]).
  - injection H as <-.
    eapply Hkeep; [reflexivity | reflexivity | intros ? ?; discriminate].
Qed.

Lemma reachable_scope c s : reachable c s -> scope_inv s.
Proof.
  intros Hr. revert s Hr. apply reachable_ind; [apply init_scope|].
  intros s s' i Hr Hs He.
  eapply exec_scope; [apply (reachable_mtx c); exact Hr | exact Hs | exact He].
Qed.

(** X6.  The mutex does exclude: in no reachable state are two workers
    inside the lock_guard's block, and a worker inside it owns the
    mutex. *)
Theorem scope_exclusive c s i j num st num' st' :
  reachable c s ->
  workers s !! i = Some (InScope num st) ->
  workers s !! j = Some (InScope num' st') ->
  i = j /\ holds_mtx s i.
Proof.
  intros Hr Hi Hj.
  pose proof (reachable_scope c s Hr _ _ _ Hi) as Hmi.
  pose proof (reachable_scope c s Hr _ _ _ Hj) as Hmj.
  split; [congruence | exact Hmi].
Qed.

(** ** Without locks *)

Lemma nolock_free c s :
  use_locks c = false -> reachable c s ->
  mtx s = None /\ forall i num st, workers s !! i <> Some (InScope num st).
Proof.
  intros Hl Hr.
  assert (Hm : mtx s = None).
  { revert s Hr. apply reachable_ind; [reflexivity|].
    intros s s' i _ Hm H. exec_cases H; simpl in H.
    - destruct (COUNTER s >? N c); injection H as <-; exact Hm.
    - rewrite Hl in H. injection H as <-. exact Hm.
    - injection H as <-. reflexivity.
    - destruct (_ <=? 1000); [destruct (hist_read _ _); [|discriminate]|];
        injection H as <-; exact Hm.
    - injection H as <-. exact Hm. }
  split; [exact Hm|].
  intros i num st Hi.
  pose proof (reachable_scope c s Hr _ _ _ Hi) as Hown. congruence.
Qed.

(** X7.  With [-nolock] the mutex is never taken: in every reachable
    state it is free and no worker is inside the lock_guard's block. *)
Theorem nolock_never_locks c s :
  use_locks c = false -> reachable c s ->
  mtx s = None /\ forall i num st, workers s !! i <> Some (InScope num st).
Proof. apply nolock_free. Qed.

Lemma nolock_never_locks_witness :
  mtx (State 2 (replicate 1001 0) None [AtUpdate 1 0] [1]) = None.
Proof.
  apply (nolock_never_locks (Config 1 1 false)); [reflexivity|].
  apply (run_reachable _ [0; 0]%nat). vm_compute. reflexivity.
Defined.

(** A run without locks can be replayed with them: the lock_guard's
    block is entered and left at once. *)
Lemma nolock_to_locks c s :
  use_locks c = false -> reachable c s -> reachable (with_locks c) s.
Proof.
  intros Hl Hr. revert s Hr. apply reachable_ind; [apply rtc_refl|].
  intros s s' i Hr IH H.
  destruct (nolock_free c s Hl Hr) as [Hm _].
  unfold reachable. eapply rtc_trans; [exact IH|].
  assert (Hlt : (i < length (workers s))%nat).
  { unfold exec in H. destruct (workers s !! i) eqn:Hw; [|discriminate].
    eapply lookup_lt_Some; exact Hw. }
  assert (Hsame : exec (with_locks c) i s = Some s' -> rtc (step (with_locks c)) s s').
  { intros He. apply rtc_once. exists i. exact He. }
  exec_cases H.
  - apply Hsame. unfold exec. rewrite Hw. exact H.
  - rewrite Hl in H. injection H as <-.
    apply rtc_l with (set_worker i (InScope num stopping_time) (set_mtx (Some i) s)).
    + exists i. unfold exec. rewrite Hw. cbn [use_locks with_locks].
      rewrite Hm. reflexivity.
    + apply rtc_once. exists i. unfold exec.
      rewrite lookup_set_worker by exact Hlt.
      unfold set_worker, set_mtx. simpl.
      rewrite list_insert_insert_eq, Hm. reflexivity.
  - apply Hsame. unfold exec. rewrite Hw. exact H.
  - apply Hsame. unfold exec. rewrite Hw. exact H.
  - apply Hsame. unfold exec. rewrite Hw. exact H.
Qed.

(** X8.  The locks change nothing that can happen: every state the
    program can reach with [-nolock] it can also reach with the locks on,
    under a suitable schedule (the same globals, histogram, and workers'
    program points). *)
Theorem nolock_states_reachable_with_locks c s :
  use_locks c = false -> reachable c s -> reachable (with_locks c) s.
Proof. apply nolock_to_locks. Qed.

Lemma nolock_states_reachable_with_locks_witness :
  reachable (Config 2 2 true) both_storing.
Proof.
  apply (nolock_states_reachable_with_locks (Config 2 2 false)); [reflexivity|].
  apply (run_reachable _ [0; 1; 0; 0; 1; 1]%nat). vm_compute. reflexivity.
Defined.

Lemma scope_exclusive_witness :
  holds_mtx (State 2 (replicate 1001 0) (Some 0%nat) [InScope 1 0] [1]) 0.
Proof.
  refine (proj2 (scope_exclusive (Config 1 1 true) _ O O 1 0 1 0 _ _ _));
    [|reflexivity|reflexivity].
  apply (run_reachable _ [0; 0]%nat). vm_compute. reflexivity.
Defined.

(** ** Progress and termination *)

(** A worker that has not returned can move, unless it waits for the
    mutex. *)
Lemma exec_enabled c s i w :
  shape_inv c s -> workers s !! i = Some w -> w <> Done ->
  (use_locks c = true -> mtx s = None) ->
  exists s', exec c i s = Some s'.
Proof.
  intros (Hh & _ & Hl) Hw Hnd Hfree.
  rewrite Forall_lookup in Hl. specialize (Hl i w Hw).
  unfold exec. rewrite Hw.
  destruct w as [| num st | num st | num st | num st v |]; [ | | | | | contradiction].
  - cbn [fetch_add]. destruct (COUNTER s >? N c); eexists; reflexivity.
  - destruct (use_locks c); [rewrite Hfree by reflexivity|]; eexists; reflexivity.
  - eexists; reflexivity.
  - destruct Hl as [_ ->].
    pose proof (compute_stopping_time_bounds num) as Hb.
    replace (compute_stopping_time num <=? 1000) with true
      by (symmetry; apply Z.leb_le; lia).
    unfold hist_read.
    replace (compute_stopping_time num <? 0) with false
      by (symmetry; apply Z.ltb_ge; lia).
    destruct (lookup_lt_is_Some_2 (histogram s)
                (Z.to_nat (compute_stopping_time num)) ltac:(lia)) as [v ->].
    eexists; reflexivity.
  - eexists; reflexivity.
Qed.

Lemma reachable_progress c s :
  reachable c s -> ~ all_done s -> exists s', step c s s'.
Proof.
  intros Hr Hnot.
  pose proof (reachable_shape c s Hr) as Hshape.
  destruct (mtx s) as [i|] eqn:Hm.
  - destruct (reachable_mtx c s Hr i Hm) as (num & st & Hw).
    exists (set_worker i (AtUpdate num st) (set_mtx None s)), i.
    unfold exec. rewrite Hw. reflexivity.
  - unfold all_done in Hnot.
    apply not_Forall_Exists in Hnot; [|intros w; apply _].
    apply Exists_exists in Hnot as (w & Hin & Hw).
    apply list_elem_of_lookup in Hin as [i Hi].
    destruct (exec_enabled c s i w Hshape Hi Hw ltac:(intros _; exact Hm)) as [s' Hs'].
    exists s', i. exact Hs'.
Qed.

(** X9.  No deadlock: in every reachable state in which some worker has
    not returned, some worker can take a step. *)
Theorem no_deadlock c s :
  reachable c s -> ~ all_done s -> exists s', step c s s'.
Proof. apply reachable_progress. Qed.

Lemma no_deadlock_witness :
  exists s', step (Config 1 2 true) (init (Config 1 2 true)) s'.
Proof.
  apply no_deadlock; [apply rtc_refl|].
  intros Hall. apply Forall_cons in Hall as [Hall _]. discriminate Hall.
Defined.

(** The counter always holds an [int]. *)
Lemma reachable_counter_int c s : reachable c s -> in_int (COUNTER s).
Proof.
  revert s. apply reachable_ind; [vm_compute; split; discriminate|].
  intros s s' i _ Hc H. exec_cases H; simpl in H.
  - destruct (COUNTER s >? N c); injection H as <-; apply wrap32_in_int.
  - destruct (use_locks c); [destruct (mtx s); [discriminate|]|];
      injection H as <-; exact Hc.
  - injection H as <-. exact Hc.
  - destruct (_ <=? 1000); [destruct (hist_read _ _); [|discriminate]|];
      injection H as <-; exact Hc.
  - injection H as <-. exact Hc.
Qed.

(** X10.  With [N = INT_MAX] the test [num > N] never succeeds: no worker
    ever returns, so with at least one thread the run never comes to an
    end and a step is always possible. *)
Theorem never_ends_at_INT_MAX c s :
  N c = INT_MAX -> 1 <= T c -> reachable c s ->
  Forall (fun w => w <> Done) (workers s) /\
  ~ all_done s /\
  exists s', step c s s'.
Proof.
  intros HN HT Hr.
  assert (Hnone : Forall (fun w => w <> Done) (workers s)).
  { revert s Hr. apply reachable_ind.
    - apply Forall_replicate. discriminate.
    - intros s s' i Hr Hall H.
      pose proof (reachable_counter_int c s Hr) as [_ Hmax].
      exec_cases H; simpl in H.
      + replace (COUNTER s >? N c) with false in H
          by (symmetry; rewrite Z.gtb_ltb; apply Z.ltb_ge; lia).
        injection H as <-. apply Forall_insert; [exact Hall | discriminate].
      + destruct (use_locks c); [destruct (mtx s); [discriminate|]|];
          injection H as <-; (apply Forall_insert; [exact Hall | discriminate]).
      + injection H as <-. apply Forall_insert; [exact Hall | discriminate].
      + destruct (_ <=? 1000); [destruct (hist_read _ _); [|discriminate]|];
          injection H as <-; (apply Forall_insert; [exact Hall | discriminate]).
      + injection H as <-. apply Forall_insert; [exact Hall | discriminate]. }
  assert (Hnot : ~ all_done s).
  { intros Hall. destruct (reachable_shape c s Hr) as (_ & Hlen & _).
    unfold all_done in Hall.
    destruct (workers s) as [|w ws]; [simpl in Hlen; lia|].
    apply Forall_cons in Hall as [-> _]. apply Forall_cons in Hnone as [Hw _].
    contradiction. }
  split; [exact Hnone|]. split; [exact Hnot|].
  apply reachable_progress; assumption.
Qed.

Lemma never_ends_at_INT_MAX_witness :
  ~ all_done (init (Config INT_MAX 1 true)).
Proof.
  apply (never_ends_at_INT_MAX (Config INT_MAX 1 true));
    [reflexivity | simpl; lia | apply rtc_refl].
Defined.

(** X11.  With [T <= 0] no thread is created: nothing ever happens, the
    joins are over at once and the histogram that is printed is all
    zeros, whatever [N] is. *)
Theorem no_threads c s :
  T c <= 0 -> reachable c s ->
  s = init c /\ all_done s /\ histogram s = replicate 1001 0.
Proof.
  intros HT Hr.
  assert (Hw : workers (init c) = []).
  { unfold init. cbn [workers]. replace (Z.to_nat (T c)) with O by lia. reflexivity. }
  assert (Hs : s = init c).
  { revert s Hr. apply reachable_ind; [reflexivity|].
    intros s s' i _ -> H. unfold exec in H. rewrite Hw in H. discriminate H. }
  subst s. split; [reflexivity|]. split; [|reflexivity].
  unfold all_done. rewrite Hw. constructor.
Qed.

Lemma no_threads_witness :
  all_done (init (Config 100 0 true)).
Proof.
  apply (no_threads (Config 100 0 true)); [simpl; lia | apply rtc_refl].
Defined.

Lemma rank_nonneg w : 0 <= rank w.
Proof. destruct w; simpl; lia. Qed.

Lemma rank_sum_nonneg ws : 0 <= rank_sum ws.
Proof.
  induction ws as [|w ws IH]; simpl; [lia|]. pose proof (rank_nonneg w). lia.
Qed.

Lemma rank_sum_insert ws : forall i w w',
  ws !! i = Some w -> rank_sum (<[i := w']> ws) = rank_sum ws - rank w + rank w'.
Proof.
  induction ws as [|x ws IH]; intros [|i] w w' Hi; simpl in *; try discriminate.
  - injection Hi as ->. lia.
  - rewrite (IH i w w' Hi). lia.
Qed.

Lemma rank_sum_replicate k : rank_sum (replicate k AtClaim) = 0.
Proof. induction k as [|k IH]; simpl; [reflexivity | exact IH]. Qed.

(** Every step uses up some of the potential. *)
Lemma exec_potential c i s s' :
  exec c i s = Some s' -> potential c s' + 1 <= potential c s.
Proof.
  intros H. unfold potential.
  exec_cases H; simpl in H;
    repeat match type of H with
           | context [if ?b then _ else _] => destruct b
           | context [match ?o with Some _ => _ | None => _ end] => destruct o
           end;
    try discriminate; injection H as <-;
    cbn [workers claimed set_worker set_mtx set_histogram length];
    rewrite length_insert, (rank_sum_insert _ _ _ _ Hw); cbn [rank]; lia.
Qed.

Lemma nsteps_potential c n s s' :
  nsteps (step c) n s s' -> potential c s' + Z.of_nat n <= potential c s.
Proof.
  induction 1 as [s | n s y s' [i Hi] _ IH]; [lia|].
  pose proof (exec_potential c i s y Hi). lia.
Qed.

Lemma count_done_all ws : Forall (fun w => w = Done) ws -> count_done ws = length ws.
Proof.
  induction 1 as [|w ws -> _ IH]; [reflexivity|].
  cbn [count_done length]. rewrite IH.
  destruct (decide (Done = Done)); [reflexivity | contradiction].
Qed.

Section NoWrapRuns.

Variable c : config.

Hypothesis no_wrap : Z.max 0 (N c) + Z.max 0 (T c) <= INT_MAX.

Lemma potential_nonneg s : reachable c s -> 0 <= potential c s.
Proof.
  intros Hr. destruct (reachable_claims c no_wrap s Hr) as (k & Hlog & _ & Hb & _).
  pose proof (count_done_le (workers s)). pose proof (rank_sum_nonneg (workers s)).
  unfold potential. rewrite Hlog, countdown_length. lia.
Qed.

Lemma reachable_done_count s : reachable c s -> done_count_inv c s.
Proof.
  revert s. apply reachable_ind.
  - unfold done_count_inv, init. cbn [workers claimed length].
    assert (Hz : forall k, count_done (replicate k AtClaim) = O).
    { induction k as [|k IH]; [reflexivity | exact IH]. }
    rewrite Hz. lia.
  - intros s s' i Hr Hinv H. unfold done_count_inv in *.
    assert (Hkeep : forall w w', workers s !! i = Some w -> w <> Done -> w' <> Done ->
              workers s' = <[i := w']> (workers s) -> claimed s' = claimed s ->
              Z.of_nat (count_done (workers s'))
              = Z.max 0 (Z.of_nat (length (claimed s')) - Z.max 0 (N c))).
    { intros w w' Hw Hnd Hnd' -> ->.
      pose proof (count_done_insert (workers s) i w w' Hw) as Hc.
      destruct (decide (w = Done)); [contradiction|].
      destruct (decide (w' = Done)); [contradiction|]. lia. }
    exec_cases H; simpl in H.
    + destruct (claim_value c no_wrap s i Hr Hw) as (k & Hlog & Hk & _).
      pose proof (count_done_insert (workers s) i AtClaim Done Hw) as Hcd.
      pose proof (count_done_insert (workers s) i AtClaim
                    (AtGuard (COUNTER s) (compute_stopping_time (COUNTER s))) Hw)
        as Hcg.
      simpl in Hcd, Hcg. rewrite Hlog, countdown_length in Hinv.
      destruct (COUNTER s >? N c) eqn:Hgt; injection H as <-;
        cbn [workers claimed set_worker length];
        rewrite Hlog, countdown_length.
      * apply Z.gtb_lt in Hgt. lia.
      * rewrite Z.gtb_ltb in Hgt. apply Z.ltb_ge in Hgt. lia.
    + destruct (use_locks c); [destruct (mtx s); [discriminate|]|];
        injection H as <-;
        (eapply Hkeep; [reflexivity | | | reflexivity | reflexivity]; discriminate).
    + injection H as <-.
      eapply Hkeep; [reflexivity | | | reflexivity | reflexivity]; discriminate.
    + destruct (_ <=? 1000); [destruct (hist_read _ _); [|discriminate]|];
        injection H as <-;
        (eapply Hkeep; [reflexivity | | | reflexivity | reflexivity]; discriminate).
    + injection H as <-.
      eapply Hkeep; [reflexivity | | | reflexivity | reflexivity]; discriminate.
Qed.

End NoWrapRuns.

(** X12.  Every run is finite.  When no claim can return a wrapped value
    ([max 0 N + max 0 T <= INT_MAX]), no schedule makes the workers take
    more than [5 * (max 0 N + max 0 T)] steps in all. *)
Theorem runs_are_bounded c n s :
  Z.max 0 (N c) + Z.max 0 (T c) <= INT_MAX ->
  nsteps (step c) n (init c) s ->
  Z.of_nat n <= 5 * (Z.max 0 (N c) + Z.max 0 (T c)).
Proof.
  intros Hnw Hn.
  pose proof (nsteps_potential c n _ _ Hn) as Hpot.
  pose proof (potential_nonneg c Hnw s (rtc_nsteps_2 _ _ _ Hn)) as Hpos.
  unfold potential at 2 in Hpot. unfold init in Hpot.
  cbn [workers claimed length] in Hpot.
  rewrite rank_sum_replicate, length_replicate in Hpot. lia.
Qed.

Lemma runs_are_bounded_witness : Z.of_nat 6 <= 5 * (Z.max 0 1 + Z.max 0 1).
Proof.
  apply (runs_are_bounded (Config 1 1 true) 6 reclaiming_1_1_done).
  - vm_compute. discriminate.
  - apply nsteps_l with (set_worker 0 (AtGuard 1 0) (snd (fetch_add (init (Config 1 1 true)))));
      [exists O; vm_compute; reflexivity|].
    repeat (eapply nsteps_l; [exists O; vm_compute; reflexivity|]).
    apply nsteps_O.
Defined.

(** X13.  What a full run costs.  With [T >= 1] threads (and no wrapped
    claim), when all workers have returned exactly [max 0 N + T] claims
    have been made, returning 1, 2, ..., [max 0 N + T] in this order, and
    the counter is left at [max 0 N + T + 1] (reduced to an [int]). *)
Theorem full_run_claims c s :
  1 <= T c -> Z.max 0 (N c) + T c <= INT_MAX ->
  reachable c s -> all_done s ->
  claimed s = countdown (Z.to_nat (Z.max 0 (N c) + T c)) /\
  COUNTER s = wrap32 (Z.max 0 (N c) + T c + 1).
Proof.
  intros HT Hsum Hr Hall.
  assert (Hnw : Z.max 0 (N c) + Z.max 0 (T c) <= INT_MAX) by lia.
  destruct (reachable_claims c Hnw s Hr) as (k & Hlog & Hcnt & _ & _).
  pose proof (reachable_done_count c Hnw s Hr) as Hdc.
  destruct (reachable_shape c s Hr) as (_ & Hlen & _).
  unfold done_count_inv in Hdc.
  rewrite (count_done_all _ Hall), Hlen, Hlog, countdown_length in Hdc.
  assert (Hk : Z.of_nat k = Z.max 0 (N c) + T c) by lia.
  rewrite Hlog, Hcnt, <- Hk, Nat2Z.id. split; reflexivity.
Qed.

Lemma full_run_claims_witness :
  claimed final_10_1 = countdown (Z.to_nat (Z.max 0 10 + 1)).
Proof.
  refine (proj1 (full_run_claims (Config 10 1 true) final_10_1 _ _ _ _)).
  - simpl. lia.
  - vm_compute. discriminate.
  - apply (run_reachable _ sched_10_1). vm_compute. reflexivity.
  - repeat constructor.
Defined.

(** ** No overcounting *)

Lemma wsum_insert f ws : forall i w w',
  ws !! i = Some w -> wsum f (<[i := w']> ws) = wsum f ws - f w + f w'.
Proof.
  induction ws as [|x ws IH]; intros [|i] w w' Hi; simpl in *; try discriminate.
  - injection Hi as ->. lia.
  - rewrite (IH i w w' Hi). lia.
Qed.

Lemma wsum_flight_nonneg j ws : 0 <= wsum (flight j) ws.
Proof.
  induction ws as [|w ws IH]; simpl; [lia|].
  assert (0 <= flight j w) by (destruct w; simpl; try destruct (_ =? _); lia). lia.
Qed.

Lemma wsum_flight_lookup j ws i w :
  ws !! i = Some w -> flight j w <= wsum (flight j) ws.
Proof.
  revert i. induction ws as [|x ws IH]; intros [|i] Hi; simpl in *; try discriminate.
  - injection Hi as ->. pose proof (wsum_flight_nonneg j ws). lia.
  - specialize (IH i Hi).
    assert (0 <= flight j x) by (destruct x; simpl; try destruct (_ =? _); lia). lia.
Qed.

Lemma tally_le_length c j l : 0 <= tally c j l <= Z.of_nat (length l).
Proof.
  unfold tally. pose proof (List.filter_length_le
    (fun v => (v <=? N c) && (compute_stopping_time v =? j)) l). lia.
Qed.

(** A step changes the count of recorded inputs only when it is a store. *)
Lemma exec_recorded c i s s' j :
  shape_inv c s -> exec c i s = Some s' ->
  recorded c s' j = recorded c s j +
    match workers s !! i with
    | Some (AtStore _ st _) => if st =? j then 1 else 0
    | _ => 0
    end.
Proof.
  intros (_ & _ & Hl) H. unfold recorded, tally.
  exec_cases H; simpl in H.
  - destruct (COUNTER s >? N c) eqn:Hgt; injection H as <-;
      cbn [workers claimed set_worker List.filter];
      rewrite (wsum_insert _ _ _ _ _ Hw); cbn [flight].
    + replace (COUNTER s <=? N c) with false
        by (symmetry; apply Z.leb_gt; apply Z.gtb_lt in Hgt; lia).
      cbn [andb]. lia.
    + replace (COUNTER s <=? N c) with true
        by (symmetry; apply Z.leb_le; rewrite Z.gtb_ltb in Hgt;
            apply Z.ltb_ge in Hgt; lia).
      cbn [andb]. destruct (compute_stopping_time (COUNTER s) =? j);
        cbn [length]; lia.
  - destruct (use_locks c); [destruct (mtx s); [discriminate|]|];
      injection H as <-; cbn [workers claimed set_worker set_mtx];
      rewrite (wsum_insert _ _ _ _ _ Hw); cbn [flight]; lia.
  - injection H as <-. cbn [workers claimed set_worker set_mtx].
    rewrite (wsum_insert _ _ _ _ _ Hw). cbn [flight]. lia.
  - destruct (stopping_time <=? 1000) eqn:Hle.
    + destruct (hist_read _ _); [|discriminate].
      injection H as <-. cbn [workers claimed set_worker].
      rewrite (wsum_insert _ _ _ _ _ Hw). cbn [flight]. lia.
    + exfalso. rewrite Forall_lookup in Hl. destruct (Hl _ _ Hw) as [_ ->].
      pose proof (compute_stopping_time_bounds num). apply Z.leb_gt in Hle. lia.
  - injection H as <-. cbn [workers claimed set_worker set_histogram].
    rewrite (wsum_insert _ _ _ _ _ Hw). cbn [flight].
    destruct (_ =? j); lia.
Qed.

Lemma exec_recorded_mono c i s s' j :
  shape_inv c s -> exec c i s = Some s' -> recorded c s j <= recorded c s' j.
Proof.
  intros Hs H. rewrite (exec_recorded c i s s' j Hs H).
  destruct (workers s !! i) as [[| | | | ? st ? |]|]; try lia.
  destruct (st =? j); lia.
Qed.

Lemma init_over c : over_inv c (init c).
Proof.
  split.
  - intros j e Hj. unfold init in Hj. cbn [histogram] in Hj.
    apply lookup_replicate in Hj as [-> _].
    unfold recorded, init. cbn [claimed workers]. unfold tally. cbn [List.filter length].
    assert (Hz : forall k, wsum (flight (Z.of_nat j)) (replicate k AtClaim) = 0).
    { induction k as [|k IH]; [reflexivity | exact IH]. }
    rewrite Hz. lia.
  - intros i num st v Hi. unfold init in Hi. cbn [workers] in Hi.
    apply lookup_replicate in Hi as [Hi _]. discriminate Hi.
Qed.

Lemma exec_over c i s s' :
  Z.max 0 (N c) + Z.max 0 (T c) <= INT_MAX ->
  reachable c s -> over_inv c s -> exec c i s = Some s' -> over_inv c s'.
Proof.
  intros Hnw Hr [Hh Hv] H.
  pose proof (reachable_shape c s Hr) as Hshape.
  pose proof Hshape as (Hlen & Hwl & Hl).
  assert (Hlt : (i < length (workers s))%nat).
  { unfold exec in H. destruct (workers s !! i) eqn:Hw; [|discriminate].
    eapply lookup_lt_Some; exact Hw. }
  assert (Hmono := fun j => exec_recorded_mono c i s s' j Hshape H).
  (* a step that leaves the histogram alone and creates no loaded value *)
  assert (Hkeep : forall w, histogram s' = histogram s ->
            workers s' = <[i := w]> (workers s) ->
            (forall num st v, w = AtStore num st v -> 0 <= v <= recorded c s st) ->
            over_inv c s').
  { intros w Hhs Hws Hnew. split.
    - intros j e Hj. rewrite Hhs in Hj. specialize (Hh j e Hj).
      specialize (Hmono (Z.of_nat j)). lia.
    - intros k num st v Hk. rewrite Hws in Hk.
      destruct (decide (i = k)) as [->|Hne].
      + rewrite list_lookup_insert_eq in Hk by exact Hlt. injection Hk as Hk.
        specialize (Hnew _ _ _ Hk). specialize (Hmono st). lia.
      + rewrite list_lookup_insert_ne in Hk by exact Hne.
        specialize (Hv _ _ _ _ Hk). specialize (Hmono st). lia. }
  pose proof H as H0.
  exec_cases H; simpl in H.
  - destruct (COUNTER s >? N c); injection H as <-;
      (eapply Hkeep; [reflexivity | reflexivity | intros ? ? ? [=]]).
  - destruct (use_locks c); [destruct (mtx s); [discriminate|]|];
      injection H as <-;
      (eapply Hkeep; [reflexivity | reflexivity | intros ? ? ? [=]]).
  - injection H as <-.
    eapply Hkeep; [reflexivity | reflexivity | intros ? ? ? [=]].
  - destruct (stopping_time <=? 1000) eqn:Hle.
    + unfold hist_read in H. destruct (stopping_time <? 0) eqn:Hneg; [discriminate|].
      destruct (histogram s !! Z.to_nat stopping_time) as [v|] eqn:Hread;
        [|discriminate].
      injection H as <-.
      eapply Hkeep; [reflexivity | reflexivity |].
      intros num' st' v' [= <- <- <-].
      specialize (Hh _ _ Hread). apply Z.ltb_ge in Hneg.
      rewrite Z2Nat.id in Hh by exact Hneg. exact Hh.
    + injection H as <-.
      eapply Hkeep; [reflexivity | reflexivity | intros ? ? ? [=]].
  - pose proof (Hv _ _ _ _ Hw) as Hvb.
    rewrite Forall_lookup in Hl. destruct (Hl _ _ Hw) as [_ Hst].
    pose proof (compute_stopping_time_bounds num) as Hb. rewrite <- Hst in Hb.
    assert (Hrec : forall j, recorded c s' j
                     = recorded c s j + if stopping_time =? j then 1 else 0).
    { intros j. rewrite (exec_recorded c i s s' j Hshape H0), Hw. reflexivity. }
    (* the stored value fits an int *)
    destruct (reachable_claims c Hnw s Hr) as (k & Hlog & _ & Hbound & _).
    pose proof (count_done_lt _ _ _ Hw ltac:(discriminate)) as Hcd.
    pose proof (tally_le_length c stopping_time (claimed s)) as Htl.
    pose proof (wsum_flight_lookup stopping_time _ _ _ Hw) as Hfl.
    cbn [flight] in Hfl. rewrite Z.eqb_refl in Hfl.
    assert (Hk : length (claimed s) = k) by (rewrite Hlog; apply countdown_length).
    rewrite Hk in Htl.
    assert (Hwrap : wrap32 (loaded + 1) = loaded + 1).
    { apply wrap32_id. unfold recorded in Hvb.
      unfold in_int, INT_MIN, INT_MAX in *. lia. }
    injection H as <-. split.
    + intros j e Hj. cbn [histogram set_worker set_histogram] in Hj.
      rewrite Hrec.
      destruct (decide (Z.to_nat stopping_time = j)) as [<-|Hne].
      * rewrite list_lookup_insert_eq in Hj by lia. injection Hj as <-.
        rewrite Z2Nat.id, Z.eqb_refl, Hwrap by lia. lia.
      * rewrite list_lookup_insert_ne in Hj by exact Hne.
        specialize (Hh j e Hj). destruct (stopping_time =? Z.of_nat j); lia.
    + intros k' num' st' v' Hk'. cbn [workers set_worker set_histogram] in Hk'.
      destruct (decide (i = k')) as [->|Hne].
      * rewrite list_lookup_insert_eq in Hk' by exact Hlt. discriminate Hk'.
      * rewrite list_lookup_insert_ne in Hk' by exact Hne.
        specialize (Hv _ _ _ _ Hk'). rewrite Hrec.
        destruct (stopping_time =? st'); lia.
Qed.

Lemma reachable_over c s :
  Z.max 0 (N c) + Z.max 0 (T c) <= INT_MAX -> reachable c s -> over_inv c s.
Proof.
  intros Hnw. revert s. apply reachable_ind; [apply init_over|].
  intros s s' i Hr Hs He. eapply exec_over; eassumption.
Qed.

(** ** The histogram against the inputs *)

Lemma with_time_succ j k :
  with_time j (S k)
  = (if compute_stopping_time (Z.of_nat (S k)) =? j then 1 else 0) + with_time j k.
Proof.
  unfold with_time. cbn [countdown List.filter].
  destruct (compute_stopping_time (Z.of_nat (S k)) =? j); cbn [length]; lia.
Qed.

Lemma with_time_mono j k k' : (k <= k')%nat -> with_time j k <= with_time j k'.
Proof.
  induction 1 as [|k' _ IH]; [lia|].
  rewrite with_time_succ. destruct (_ =? j); lia.
Qed.

Lemma with_time_bounds j k : 0 <= with_time j k <= Z.of_nat k.
Proof.
  unfold with_time.
  pose proof (List.filter_length_le
    (fun v => compute_stopping_time v =? j) (countdown k)) as H.
  rewrite countdown_length in H. lia.
Qed.

(** Of the claims [k, ..., 1] only those up to [N] count. *)
Lemma tally_countdown c j k :
  tally c j (countdown k) = with_time j (Nat.min k (Z.to_nat (N c))).
Proof.
  induction k as [|k IH]; [reflexivity|].
  unfold tally in *. cbn [countdown List.filter].
  destruct (Z.of_nat (S k) <=? N c) eqn:Hle.
  - apply Z.leb_le in Hle.
    replace (Nat.min (S k) (Z.to_nat (N c))) with (S k) by lia.
    replace (Nat.min k (Z.to_nat (N c))) with k in IH by lia.
    rewrite with_time_succ, <- IH. cbn [andb].
    destruct (_ =? j); cbn [length]; lia.
  - apply Z.leb_gt in Hle. cbn [andb].
    replace (Nat.min (S k) (Z.to_nat (N c))) with (Nat.min k (Z.to_nat (N c))) by lia.
    exact IH.
Qed.

Lemma inputs_with_with_time c j : inputs_with c j = with_time j (Z.to_nat (N c)).
Proof. reflexivity. Qed.

Lemma recorded_le_inputs c s j :
  Z.max 0 (N c) + Z.max 0 (T c) <= INT_MAX -> reachable c s ->
  recorded c s j <= inputs_with c j.
Proof.
  intros Hnw Hr.
  destruct (reachable_claims c Hnw s Hr) as (k & Hlog & _).
  unfold recorded. rewrite Hlog, tally_countdown, inputs_with_with_time.
  pose proof (wsum_flight_nonneg j (workers s)).
  pose proof (with_time_mono j (Nat.min k (Z.to_nat (N c))) (Z.to_nat (N c))
                ltac:(lia)).
  lia.
Qed.

(** X14.  No overcounting, in either mode and under every schedule (as
    long as no claim can return a wrapped value): in every reachable state
    each histogram entry [j] is at least 0 and at most the number of
    inputs in [1, N] whose stopping time is [j]. *)
Theorem no_overcounting c s (j : nat) e :
  Z.max 0 (N c) + Z.max 0 (T c) <= INT_MAX ->
  reachable c s -> histogram s !! j = Some e ->
  0 <= e <= inputs_with c (Z.of_nat j).
Proof.
  intros Hnw Hr Hj.
  destruct (reachable_over c s Hnw Hr) as [Hh _].
  specialize (Hh j e Hj).
  pose proof (recorded_le_inputs c s (Z.of_nat j) Hnw Hr). lia.
Qed.

Lemma no_overcounting_witness :
  0 <= 1 <= inputs_with (Config 13 2 true) (Z.of_nat 9).
Proof.
  destruct (run (Config 13 2 true) sched_lost_update (init (Config 13 2 true)))
    as [s|] eqn:Hrun; [|vm_compute in Hrun; discriminate Hrun].
  apply (no_overcounting (Config 13 2 true) s 9 1).
  - vm_compute. discriminate.
  - apply (run_reachable _ sched_lost_update). exact Hrun.
  - vm_compute in Hrun. injection Hrun as <-. reflexivity.
Defined.

(** Sums over index ranges. *)
Lemma hist_sum_pointwise (h : list Z) : forall (f : nat -> Z) a,
  (forall j e, h !! j = Some e -> e <= f (a + j)%nat) ->
  hist_sum h <= hist_sum (map f (seq a (length h))).
Proof.
  induction h as [|x h IH]; intros f a Hle; [simpl; lia|].
  cbn [length seq map hist_sum foldr].
  pose proof (Hle O x eq_refl) as H0. rewrite Nat.add_0_r in H0.
  specialize (IH f (S a)). unfold hist_sum in IH.
  assert (foldr Z.add 0 h <= foldr Z.add 0 (map f (seq (S a) (length h)))).
  { apply IH. intros j e Hj. replace (S a + j)%nat with (a + S j)%nat by lia.
    apply Hle. exact Hj. }
  lia.
Qed.

Lemma indicator_sum x m : forall a,
  0 <= hist_sum (map (fun j => if x =? Z.of_nat j then 1 else 0) (seq a m)) <= 1 /\
  (x < Z.of_nat a ->
   hist_sum (map (fun j => if x =? Z.of_nat j then 1 else 0) (seq a m)) = 0).
Proof.
  induction m as [|m IH]; intros a; [simpl; lia|].
  cbn [seq map hist_sum foldr]. destruct (IH (S a)) as [Hb Hz].
  unfold hist_sum in Hb, Hz.
  destruct (x =? Z.of_nat a) eqn:Hx.
  - apply Z.eqb_eq in Hx. rewrite Hz by lia. lia.
  - apply Z.eqb_neq in Hx. split; [lia|]. intros Hlt. rewrite Hz by lia. lia.
Qed.

Lemma with_time_sum k : forall a m,
  hist_sum (map (fun j => with_time (Z.of_nat j) k) (seq a m)) <= Z.of_nat k.
Proof.
  induction k as [|k IH]; intros a m.
  - assert (Hz : forall l : list nat,
              hist_sum (map (fun j => with_time (Z.of_nat j) 0) l) = 0).
    { induction l as [|y l IHl]; [reflexivity|]. simpl. exact IHl. }
    rewrite Hz. lia.
  - assert (Hsplit : forall l : list nat,
      hist_sum (map (fun j => with_time (Z.of_nat j) (S k)) l)
      = hist_sum (map (fun j => if compute_stopping_time (Z.of_nat (S k)) =? Z.of_nat j
                                then 1 else 0) l)
        + hist_sum (map (fun j => with_time (Z.of_nat j) k) l)).
    { induction l as [|y l IHl]; [reflexivity|].
      cbn [map hist_sum foldr]. unfold hist_sum in IHl.
      rewrite IHl, with_time_succ. lia. }
    rewrite Hsplit. specialize (IH a m).
    destruct (indicator_sum (compute_stopping_time (Z.of_nat (S k))) m a) as [Hb _].
    lia.
Qed.

(** X15.  The sum of the histogram never exceeds the size of the range,
    in either mode and under every schedule (as long as no claim can
    return a wrapped value): lost updates can only lower it. *)
Theorem sum_at_most_N c s :
  Z.max 0 (N c) + Z.max 0 (T c) <= INT_MAX ->
  reachable c s ->
  0 <= hist_sum (histogram s) <= Z.max 0 (N c).
Proof.
  intros Hnw Hr. split.
  - apply hist_sum_nonneg. apply Forall_lookup. intros j e Hj.
    destruct (reachable_over c s Hnw Hr) as [Hh _]. specialize (Hh j e Hj). lia.
  - pose proof (hist_sum_pointwise (histogram s)
                  (fun j => with_time (Z.of_nat j) (Z.to_nat (N c))) O) as Hp.
    pose proof (with_time_sum (Z.to_nat (N c)) O (length (histogram s))) as Hs.
    assert (hist_sum (histogram s)
            <= hist_sum (map (fun j => with_time (Z.of_nat j) (Z.to_nat (N c)))
                             (seq 0 (length (histogram s))))); [|lia].
    apply Hp. intros j e Hj. cbn [Nat.add].
    rewrite <- inputs_with_with_time.
    destruct (reachable_over c s Hnw Hr) as [Hh _]. specialize (Hh j e Hj).
    pose proof (recorded_le_inputs c s (Z.of_nat j) Hnw Hr). lia.
Qed.

Lemma sum_at_most_N_witness :
  0 <= hist_sum (histogram final_10_1) <= Z.max 0 10.
Proof.
  apply (sum_at_most_N (Config 10 1 true)).
  - vm_compute. discriminate.
  - apply (run_reachable _ sched_10_1). vm_compute. reflexivity.
Defined.

(** ** One thread: the histogram is the right one *)

Lemma reachable_serial c s :
  T c = 1 -> N c < INT_MAX -> reachable c s -> serial_inv s.
Proof.
  intros HT HN. revert s. apply reachable_ind; [apply init_serial; exact HT|].
  intros s s' i Hr Hs He. eapply exec_serial; eassumption.
Qed.

Lemma reachable_exact c s :
  T c = 1 -> N c < INT_MAX -> reachable c s -> exact_inv c s.
Proof.
  intros HT HN.
  assert (Hnw : Z.max 0 (N c) + Z.max 0 (T c) <= INT_MAX)
    by (unfold INT_MAX in *; lia).
  revert s. apply reachable_ind.
  - intros j e Hj. destruct (init_over c) as [Hh _]. specialize (Hh j e Hj).
    unfold init in Hj. cbn [histogram] in Hj.
    apply lookup_replicate in Hj as [-> _].
    pose proof (wsum_flight_nonneg (Z.of_nat j) (workers (init c))).
    unfold recorded in *. change (claimed (init c)) with (@nil Z) in *.
    unfold tally in *. cbn [List.filter length] in *. lia.
  - intros s s' i Hr Hex H.
    pose proof (reachable_shape c s Hr) as Hshape.
    pose proof (reachable_serial c s HT HN Hr) as [_ (w & Hws & Hser)].
    pose proof (fun j => exec_recorded c i s s' j Hshape H) as Hrec.
    assert (Hi0 : i = O).
    { unfold exec in H. destruct (workers s !! i) eqn:Hw; [|discriminate].
      apply lookup_lt_Some in Hw. rewrite Hws in Hw. simpl in Hw. lia. }
    subst i. rewrite Hws in Hrec. cbn [lookup list_lookup] in Hrec.
    unfold exec in H. rewrite Hws in H. cbn [lookup list_lookup] in H.
    destruct w as [| num st | num st | num st | num st v |]; [ | | | | | discriminate].
    + cbn [fetch_add] in H. destruct (COUNTER s >? N c); injection H as <-;
        intros j e Hj; rewrite Hrec, Z.add_0_r; exact (Hex j e Hj).
    + destruct (use_locks c); [destruct (mtx s); [discriminate|]|];
        injection H as <-;
        intros j e Hj; rewrite Hrec, Z.add_0_r; exact (Hex j e Hj).
    + injection H as <-.
      intros j e Hj. rewrite Hrec, Z.add_0_r. exact (Hex j e Hj).
    + destruct (st <=? 1000); [destruct (hist_read _ _); [|discriminate]|];
        injection H as <-;
        intros j e Hj; rewrite Hrec, Z.add_0_r; exact (Hex j e Hj).
    + destruct Hser as [_ Hv].
      destruct (reachable_over c s Hnw Hr) as [_ Hvo].
      assert (Hw0 : workers s !! O = Some (AtStore num st v))
        by (rewrite Hws; reflexivity).
      pose proof (Hvo _ _ _ _ Hw0) as Hvb.
      destruct Hshape as (Hlen & _ & Hl).
      rewrite Forall_lookup in Hl. destruct (Hl _ _ Hw0) as [_ Hst].
      pose proof (compute_stopping_time_bounds num) as Hb. rewrite <- Hst in Hb.
      destruct (reachable_claims c Hnw s Hr) as (k & Hlog & _ & Hbound & _).
      pose proof (tally_le_length c st (claimed s)) as Htl.
      assert (Hk : length (claimed s) = k) by (rewrite Hlog; apply countdown_length).
      rewrite Hk in Htl. unfold recorded in Hvb.
      rewrite Hws in Hbound, Hvb. simpl in Hbound.
      assert (Hwrap : wrap32 (v + 1) = v + 1).
      { apply wrap32_id. cbn [wsum foldr flight] in Hvb.
        rewrite Z.eqb_refl in Hvb.
        unfold in_int, INT_MIN, INT_MAX in *. lia. }
      injection H as <-. intros j e Hj.
      cbn [histogram set_worker set_histogram] in Hj. rewrite Hrec.
      destruct (decide (Z.to_nat st = j)) as [<-|Hne].
      * rewrite list_lookup_insert_eq in Hj by lia. injection Hj as <-.
        rewrite Z2Nat.id, Z.eqb_refl, Hwrap by lia.
        pose proof (Hex _ _ Hv) as Hev. rewrite Z2Nat.id in Hev by lia. lia.
      * rewrite list_lookup_insert_ne in Hj by exact Hne.
        replace (st =? Z.of_nat j) with false
          by (symmetry; apply Z.eqb_neq; lia).
        rewrite Z.add_0_r. exact (Hex j e Hj).
Qed.

(** X16.  With a single thread and [N < INT_MAX] the program computes the
    histogram it is meant to: at the end of every full run, entry [j] is
    the number of inputs [n] in [1, N] with [compute_stopping_time n = j],
    for every [j] in [0, 1000]. *)
Theorem single_thread_histogram c s (j : nat) :
  T c = 1 -> N c < INT_MAX -> reachable c s -> all_done s ->
  (j <= 1000)%nat ->
  histogram s !! j = Some (inputs_with c (Z.of_nat j)).
Proof.
  intros HT HN Hr Hall Hj.
  assert (Hnw : Z.max 0 (N c) + Z.max 0 (T c) <= INT_MAX)
    by (unfold INT_MAX in *; lia).
  destruct (reachable_shape c s Hr) as (Hlen & Hwl & _).
  destruct (lookup_lt_is_Some_2 (histogram s) j ltac:(lia)) as [e He].
  rewrite He. f_equal.
  rewrite (reachable_exact c s HT HN Hr j e He).
  destruct (reachable_claims c Hnw s Hr) as (k & Hlog & _ & Hbound & Hdone).
  destruct (workers s) as [|w [|w' ws]] eqn:Hws; simpl in Hwl; try lia.
  unfold all_done in Hall. rewrite Hws in Hall.
  apply Forall_cons in Hall as [-> _].
  specialize (Hdone ltac:(apply list_elem_of_here)).
  unfold recorded. rewrite Hws, Hlog, tally_countdown, inputs_with_with_time.
  cbn [wsum foldr flight].
  replace (Nat.min k (Z.to_nat (N c))) with (Z.to_nat (N c)) by lia. lia.
Qed.

Lemma single_thread_histogram_witness :
  histogram final_10_1 !! 7%nat = Some (inputs_with (Config 10 1 true) (Z.of_nat 7)).
Proof.
  apply (single_thread_histogram (Config 10 1 true) final_10_1 7).
  - reflexivity.
  - vm_compute. reflexivity.
  - apply (run_reachable _ sched_10_1). vm_compute. reflexivity.
  - repeat constructor.
  - lia.
Defined.

(** ** The two modes have the same outcomes *)

Lemma erase_set_worker i w s :
  erase (set_worker i w s) = set_worker i (erase_worker w) (erase s).
Proof. unfold erase, set_worker. simpl. rewrite list_fmap_insert. reflexivity. Qed.

Lemma erase_lookup s i w :
  workers s !! i = Some w -> workers (erase s) !! i = Some (erase_worker w).
Proof. intros Hw. unfold erase. simpl. rewrite list_lookup_fmap, Hw. reflexivity. Qed.

Lemma erase_insert_same s i w :
  workers s !! i = Some w ->
  <[i := erase_worker w]> (erase_worker <$> workers s) = erase_worker <$> workers s.
Proof.
  intros Hw. apply list_insert_id. rewrite list_lookup_fmap, Hw. reflexivity.
Qed.

(** A step with locks is, without them, either no step at all (taking
    the mutex) or the same thread's step. *)
Lemma exec_erase c i s s' :
  use_locks c = true -> exec c i s = Some s' ->
  erase s' = erase s \/ exec (without_locks c) i (erase s) = Some (erase s').
Proof.
  intros Hl H. exec_cases H; pose proof (erase_lookup _ _ _ Hw) as Hew.
  - right. unfold exec. rewrite Hew. cbn [erase_worker fetch_add].
    cbn [fetch_add] in H.
    change (COUNTER (erase s)) with (COUNTER s).
    change (N (without_locks c)) with (N c).
    destruct (COUNTER s >? N c); injection H as <-;
      unfold erase, set_worker; simpl; rewrite list_fmap_insert; reflexivity.
  - rewrite Hl in H. destruct (mtx s); [discriminate|]. injection H as <-.
    left. unfold erase, set_worker, set_mtx. simpl.
    rewrite list_fmap_insert. cbn [erase_worker].
    f_equal. apply (erase_insert_same s i _ Hw).
  - injection H as <-. right. unfold exec. rewrite Hew.
    cbn [erase_worker use_locks without_locks].
    unfold erase, set_worker, set_mtx. simpl.
    rewrite list_fmap_insert. reflexivity.
  - right. unfold exec. rewrite Hew. cbn [erase_worker].
    change (histogram (erase s)) with (histogram s).
    destruct (stopping_time <=? 1000); [destruct (hist_read _ _); [|discriminate]|];
      injection H as <-; rewrite erase_set_worker; reflexivity.
  - injection H as <-. right. unfold exec. rewrite Hew. cbn [erase_worker].
    unfold erase, set_worker, set_histogram. simpl.
    rewrite list_fmap_insert. reflexivity.
Qed.

Lemma locks_to_nolock c s :
  use_locks c = true -> reachable c s -> reachable (without_locks c) (erase s).
Proof.
  intros Hl. revert s. apply reachable_ind.
  - unfold erase, init. simpl. rewrite fmap_replicate. apply rtc_refl.
  - intros s s' i _ IH H.
    destruct (exec_erase c i s s' Hl H) as [-> | He]; [exact IH|].
    eapply rtc_r; [exact IH | exists i; exact He].
Qed.

Lemma erase_final c s : reachable c s -> all_done s -> erase s = s.
Proof.
  intros Hr Hall.
  assert (Hm : mtx s = None).
  { destruct (mtx s) as [i|] eqn:Hm; [|reflexivity].
    destruct (reachable_mtx c s Hr i Hm) as (num & st & Hw).
    unfold all_done in Hall. rewrite Forall_lookup in Hall.
    specialize (Hall _ _ Hw). discriminate Hall. }
  assert (Hws : erase_worker <$> workers s = workers s).
  { unfold all_done in Hall. induction Hall as [|w ws -> _ IH]; [reflexivity|].
    cbn [fmap list_fmap erase_worker]. f_equal. exact IH. }
  destruct s as [cnt h m ws cl]. unfold erase. simpl in *. subst m.
  rewrite Hws. reflexivity.
Qed.

(** X17.  The flag makes no difference to what the program can print:
    a final state (all workers returned) can be reached with the locks on
    exactly when it can be reached with [-nolock]. *)
Theorem modes_same_outcomes (n t : Z) (s : state) :
  all_done s ->
  (reachable (Config n t true) s <-> reachable (Config n t false) s).
Proof.
  intros Hall. split; intros Hr.
  - rewrite <- (erase_final _ s Hr Hall).
    apply (locks_to_nolock (Config n t true)); [reflexivity | exact Hr].
  - apply (nolock_to_locks (Config n t false)); [reflexivity | exact Hr].
Qed.

Lemma modes_same_outcomes_witness :
  reachable (Config 10 1 false) final_10_1.
Proof.
  apply (proj1 (modes_same_outcomes 10 1 final_10_1 ltac:(repeat constructor))).
  apply (run_reachable _ sched_10_1). vm_compute. reflexivity.
Defined.

(** ** More on [main] *)

Lemma wrap64_id z : - 2 ^ 63 <= z < 2 ^ 63 -> wrap64 z = z.
Proof. intros Hz. unfold wrap64. rewrite Z.mod_small; lia. Qed.

(** X18.  The elapsed time is normalized: for two readings of the clock,
    the nanoseconds that are printed lie in [0, 10^9) and
    [seconds * 10^9 + nanoseconds] is the exact difference of the two
    readings; the seconds are not negative when the clock did not go
    back. *)
Theorem elapsed_normalized (start_time end_time : timespec) :
  valid_timespec start_time -> valid_timespec end_time ->
  let '(seconds, nanoseconds) := elapsed start_time end_time in
  0 <= nanoseconds < 1000000000 /\
  seconds * 1000000000 + nanoseconds = total_ns end_time - total_ns start_time /\
  (total_ns start_time <= total_ns end_time -> 0 <= seconds).
Proof.
  intros [Hs1 Hn1] [Hs2 Hn2]. unfold elapsed, total_ns.
  rewrite (wrap64_id (tv_sec end_time - tv_sec start_time)) by lia.
  rewrite (wrap64_id (tv_nsec end_time - tv_nsec start_time)) by lia.
  destruct (tv_nsec end_time - tv_nsec start_time <? 0) eqn:Hneg.
  - apply Z.ltb_lt in Hneg. rewrite !wrap64_id by lia. lia.
  - apply Z.ltb_ge in Hneg. lia.
Qed.

Lemma elapsed_normalized_witness :
  elapsed (Timespec 5 900000000) (Timespec 7 100000000) = (1, 200000000) /\
  1 * 1000000000 + 200000000
  = total_ns (Timespec 7 100000000) - total_ns (Timespec 5 900000000).
Proof.
  split; [reflexivity|].
  refine (proj1 (proj2 (elapsed_normalized (Timespec 5 900000000)
                          (Timespec 7 100000000) _ _)));
    (split; simpl; lia).
Defined.

(** ** Every run can be completed *)

Lemma completes_within c (Hnw : Z.max 0 (N c) + Z.max 0 (T c) <= INT_MAX) (n : nat) :
  forall s, reachable c s -> potential c s <= Z.of_nat n ->
  exists s', rtc (step c) s s' /\ all_done s'.
Proof.
  induction n as [|n IH]; intros s Hr Hpot;
    (destruct (decide (all_done s)) as [Hall|Hnot];
     [exists s; split; [apply rtc_refl | exact Hall]|]);
    destruct (reachable_progress c s Hr Hnot) as (s1 & i & Hi);
    pose proof (exec_potential c i s s1 Hi) as Hdec;
    assert (Hr1 : reachable c s1) by (eapply rtc_r; [exact Hr | exists i; exact Hi]);
    pose proof (potential_nonneg c Hnw s1 Hr1) as Hpos.
  - lia.
  - destruct (IH s1 Hr1 ltac:(lia)) as (s' & Hs' & Hall).
    exists s'. split; [|exact Hall].
    eapply rtc_l; [exists i; exact Hi | exact Hs'].
Qed.

(** X22.  The program can always finish: when no claim can return a
    wrapped value, every reachable state, whatever the schedule so far,
    can be continued to a state in which all workers have returned. *)
Theorem run_can_complete c s :
  Z.max 0 (N c) + Z.max 0 (T c) <= INT_MAX -> reachable c s ->
  exists s', rtc (step c) s s' /\ all_done s'.
Proof.
  intros Hnw Hr.
  pose proof (potential_nonneg c Hnw s Hr) as Hpos.
  apply (completes_within c Hnw (Z.to_nat (potential c s)) s Hr). lia.
Qed.

Lemma run_can_complete_witness :
  exists s', rtc (step (Config 2 2 true)) both_storing s' /\ all_done s'.
Proof.
  apply run_can_complete; [vm_compute; discriminate|].
  apply (run_reachable _ sched_both_storing). vm_compute. reflexivity.
Defined.

(** ** Witnesses *)

Lemma increment_outside_mtx_witness : ~ holds_mtx both_storing 0.
Proof.
  apply (increment_outside_mtx (Config 2 2 true)).
  - apply (run_reachable _ sched_both_storing). vm_compute. reflexivity.
  - exists 1, 0, 0. reflexivity.
Defined.

Lemma single_thread_sum_witness : hist_sum (histogram final_10_1) = Z.max 0 10.
Proof.
  apply (single_thread_sum (Config 10 1 true)).
  - reflexivity.
  - vm_compute. reflexivity.
  - apply (run_reachable _ sched_10_1). vm_compute. reflexivity.
  - repeat constructor.
Defined.
